(** * Refresh-token store and session service of the Fastify auth API

    A shallow embedding of [token.store.ts], [auth.service.ts] and
    [auth.controller.ts], with the public-routes configuration, the
    [authenticate] decorator of [jwt.plugin.ts] and the two protected
    routes of [auth.routes.ts].

    Conventions of the embedding:
    - a JavaScript [number] holding a millisecond timestamp, a ttl in
      seconds or a counter is an integer ([Z], [nat] for the counter):
      the values are whole numbers far below 2^53, where the floating
      point operations of the source are exact; [exact_save] names the
      arguments of [saveToken] for which that is so, and
      [expiresAt_number] is its arithmetic on binary64 numbers, for the
      arguments that are not whole numbers;
    - [Date.now()] is an explicit argument [now] of every operation that
      reads the clock, and so is the clock that [app.jwt] reads; one
      call of a service method sees one clock value, and
      [login_clock_reads] is [login] with its three reads of the clock
      kept apart;
    - the [Map<string, StoredToken>] held by the store is a [gmap]; the
      two loops over [this.tokens.entries()] are folds over an
      enumeration of the entries, and are shown not to depend on the
      order of that enumeration;
    - a method that mutates the store returns the new store next to its
      result; a method that can [throw] returns [inl message]. *)

From Stdlib Require Import ZArith Lia Ascii.
From Stdlib Require Import Floats.PrimFloat.
From stdpp Require Import gmap strings list fin_maps.

Local Open Scope Z_scope.

(** ** token.store.ts *)

Record StoredToken := mkStoredToken {
  username : string;
  issuedAt : Z;
  expiresAt : Z
}.

Abbreviation TokenStore := (gmap string StoredToken).

(** Default value of the [ttlSeconds] parameter of [saveToken]. *)
Definition DEFAULT_TTL_SECONDS : Z := 7 * 24 * 60 * 60.

(** [saveToken(token, username, ttlSeconds = 7 * 24 * 60 * 60)];
    [None] stands for an omitted third argument. *)
Definition saveToken (token user : string) (ttlSeconds : option Z)
    (now : Z) (tokens : TokenStore) : TokenStore :=
  let ttl := default DEFAULT_TTL_SECONDS ttlSeconds in
  <[token := {| username := user;
                issuedAt := now;
                expiresAt := now + ttl * 1000 |}]> tokens.

(** [verifyToken(token)]: the username, or [None] for [null]. *)
Definition verifyToken (token : string) (now : Z) (tokens : TokenStore)
    : option string * TokenStore :=
  match tokens !! token with
  | None => (None, tokens)
  | Some stored =>
      if now >? expiresAt stored
      then (None, delete token tokens)
      else (Some (username stored), tokens)
  end.

Definition revokeToken (token : string) (tokens : TokenStore) : TokenStore :=
  delete token tokens.

(** Body of the loop of [revokeAllUserTokens], run over the entries
    [entries] that the iterator yields. *)
Definition revokeAllUserTokens_loop (user : string)
    (entries : list (string * StoredToken)) (tokens : TokenStore)
    : TokenStore :=
  foldl (fun acc entry =>
           if String.eqb (username entry.2) user
           then delete entry.1 acc
           else acc)
        tokens entries.

Definition revokeAllUserTokens (user : string) (tokens : TokenStore)
    : TokenStore :=
  revokeAllUserTokens_loop user (map_to_list tokens) tokens.

(** Body of the loop of [cleanupExpired]: the state is the store and the
    counter [cleaned]. *)
Definition cleanupExpired_loop (now : Z)
    (entries : list (string * StoredToken)) (tokens : TokenStore)
    : nat * TokenStore :=
  foldl (fun acc entry =>
           if now >? expiresAt entry.2
           then (S acc.1, delete entry.1 acc.2)
           else acc)
        (O, tokens) entries.

Definition cleanupExpired (now : Z) (tokens : TokenStore)
    : nat * TokenStore :=
  cleanupExpired_loop now (map_to_list tokens) tokens.

(** The records that [cleanupExpired] looks for at time [now]. *)
Definition expired (now : Z) (entry : string * StoredToken) : Prop :=
  expiresAt entry.2 < now.

Instance expired_dec now entry : Decision (expired now entry).
Proof. unfold expired. apply _. Defined.

(** ** auth.types.ts *)

Module AuthTypes.

Record LoginRequest := mkLoginRequest {
  username : string;
  password : string
}.

Record TokenResponse := mkTokenResponse {
  accessToken : string;
  refreshToken : string;
  tokenType : string
}.

End AuthTypes.

(** ** The JWT primitive behind [app.jwt]

    [app.jwt] comes from the @fastify/jwt package, which is not part of
    the repository. It is an interface here: the compact serialisation
    of a claim set (header, payload and HMAC-SHA256 signature under the
    configured secret) is a function of the claim set that determines
    it, and a token just produced verifies until its [exp]. Nothing is
    assumed about strings that are not such serialisations, nor about
    the instant [exp * 1000] itself. *)

Record Claims := mkClaims {
  sub : string;
  iat : Z;   (* unix seconds *)
  exp : Z    (* unix seconds *)
}.

Class Jwt := {
  jwt_encode : Claims -> string;
  jwt_verify : string -> Z -> option Claims;
  jwt_encode_inj c1 c2 : jwt_encode c1 = jwt_encode c2 -> c1 = c2;
  jwt_verify_encode c now :
    iat c * 1000 <= now -> now < exp c * 1000 ->
    jwt_verify (jwt_encode c) now = Some c
}.

(** [app.jwt.sign({ sub }, { expiresIn })] when the clock reads [now]
    milliseconds: [iat] is the clock in whole seconds and [exp] is
    [iat + expiresIn]. *)
Definition jwt_sign `{Jwt} (subject : string) (expiresIn : Z) (now : Z)
    : string :=
  jwt_encode {| sub := subject;
                iat := now / 1000;
                exp := now / 1000 + expiresIn |}.

(** The two [expiresIn] values of the service, ['15m'] and ['7d'], in
    seconds. *)
Definition expiresIn_15m : Z := 15 * 60.
Definition expiresIn_7d : Z := 7 * 24 * 60 * 60.

(** ** Methods that read or write the store and may throw *)

Inductive Exception :=
| Error (message : string)   (* [throw new Error(message)] *)
| JwtVerifyError.            (* thrown by [app.jwt.verify] *)

Definition Svc (A : Type) : Type :=
  TokenStore -> (Exception + A) * TokenStore.

Definition svc_ret {A} (a : A) : Svc A := fun tokens => (inr a, tokens).

Definition svc_throw {A} (e : Exception) : Svc A :=
  fun tokens => (inl e, tokens).

Definition svc_bind {A B} (m : Svc A) (k : A -> Svc B) : Svc B :=
  fun tokens =>
    match m tokens with
    | (inl e, tokens') => (inl e, tokens')
    | (inr a, tokens') => k a tokens'
    end.

Notation "'let*' x := m 'in' k" := (svc_bind m (fun x => k))
  (at level 10, x name, m at level 100, k at level 200,
   format "'[v' 'let*'  x  :=  m  'in' '/' k ']'").

(** A call of a store method that returns nothing. *)
Definition store_update (f : TokenStore -> TokenStore) : Svc unit :=
  fun tokens => (inr tt, f tokens).

(** A call of a store method that returns a value. *)
Definition store_call {A} (f : TokenStore -> A * TokenStore) : Svc A :=
  fun tokens => (inr (f tokens).1, (f tokens).2).

(** JavaScript's [!username] for a [string | null]. *)
Definition falsy (value : option string) : bool :=
  match value with
  | None => true
  | Some s => String.eqb s ""
  end.

(** ** auth.service.ts *)

Module AuthService.
Section with_jwt.

Context `{Jwt}.

Import AuthTypes.

(** [login(payload)]: the credential check, the two [app.jwt.sign]
    calls and [tokenStore.saveToken]. *)
Definition login (payload : LoginRequest) (now : Z) : Svc TokenResponse :=
  if negb (String.eqb (username payload) "admin")
     || negb (String.eqb (password payload) "Admin@123")
  then svc_throw (Error "Invalid credentials")
  else
    let accessToken := jwt_sign (username payload) expiresIn_15m now in
    let refreshToken := jwt_sign (username payload) expiresIn_7d now in
    let* _ := store_update
                (saveToken refreshToken (username payload)
                           (Some (7 * 24 * 60 * 60)) now) in
    svc_ret {| accessToken := accessToken;
               refreshToken := refreshToken;
               tokenType := "Bearer" |}.

(** [refresh(refreshToken)]: [tokenStore.verifyToken], then
    [app.jwt.verify], then a new access token for the decoded subject. *)
Definition refresh (refreshToken : string) (now : Z) : Svc TokenResponse :=
  let* user := store_call (verifyToken refreshToken now) in
  if falsy user
  then svc_throw (Error "Refresh token is invalid or revoked")
  else
    match jwt_verify refreshToken now with
    | None => svc_throw JwtVerifyError
    | Some decoded =>
        let newAccessToken := jwt_sign (sub decoded) expiresIn_15m now in
        svc_ret {| accessToken := newAccessToken;
                   refreshToken := refreshToken;
                   tokenType := "Bearer" |}
    end.

(** [logout(refreshToken)]: [tokenStore.revokeToken] and nothing else. *)
Definition logout (refreshToken : string) : Svc unit :=
  store_update (revokeToken refreshToken).

End with_jwt.
End AuthService.

(** ** auth.controller.ts *)

Module AuthController.

Import AuthTypes.

Inductive Body :=
| TokensBody (tokens : TokenResponse)
| MessageBody (message : string).

(** What [reply.code(c).send(b)] sends; [reply.send(b)] sends 200. *)
Record Reply := mkReply { code : Z; body : Body }.

Section with_jwt.

Context `{Jwt}.

(** The three handlers: [try] the service call and send its result,
    [catch] whatever it throws and send the fixed rejection. The body
    fields arrive with the types that the handlers cast them to. *)
Definition login (requestBody : LoginRequest) (now : Z)
    (tokens : TokenStore) : Reply * TokenStore :=
  match AuthService.login requestBody now tokens with
  | (inr response, tokens') => (mkReply 200 (TokensBody response), tokens')
  | (inl _, tokens') =>
      (mkReply 401 (MessageBody "Invalid credentials"), tokens')
  end.

Definition refresh (refreshToken : string) (now : Z)
    (tokens : TokenStore) : Reply * TokenStore :=
  if String.eqb refreshToken ""
  then (mkReply 400 (MessageBody "Refresh token is required"), tokens)
  else
    match AuthService.refresh refreshToken now tokens with
    | (inr response, tokens') => (mkReply 200 (TokensBody response), tokens')
    | (inl _, tokens') =>
        (mkReply 401 (MessageBody "Invalid refresh token"), tokens')
    end.

Definition logout (refreshToken : string)
    (tokens : TokenStore) : Reply * TokenStore :=
  if String.eqb refreshToken ""
  then (mkReply 400 (MessageBody "Refresh token is required"), tokens)
  else
    match AuthService.logout refreshToken tokens with
    | (inr _, tokens') =>
        (mkReply 200 (MessageBody "Logged out successfully"), tokens')
    | (inl _, tokens') => (mkReply 400 (MessageBody "Logout failed"), tokens')
    end.

End with_jwt.
End AuthController.

(** ** Sequences of store operations *)

Inductive StoreOp :=
| OpSave (token user : string) (ttlSeconds : option Z)
| OpVerify (token : string)
| OpRevoke (token : string)
| OpRevokeAll (user : string)
| OpSweep.

(** One call of a public method of the store when the clock reads [now]. *)
Definition run_op (op : StoreOp) (now : Z) (tokens : TokenStore)
    : TokenStore :=
  match op with
  | OpSave token user ttlSeconds => saveToken token user ttlSeconds now tokens
  | OpVerify token => (verifyToken token now tokens).2
  | OpRevoke token => revokeToken token tokens
  | OpRevokeAll user => revokeAllUserTokens user tokens
  | OpSweep => (cleanupExpired now tokens).2
  end.

(** A sequence of calls, each with the clock value it reads. *)
Definition run_ops (ops : list (StoreOp * Z)) (tokens : TokenStore)
    : TokenStore :=
  foldl (fun acc call => run_op call.1 call.2 acc) tokens ops.

(** The Session Record invariant of the data model. *)
Definition window_ok (stored : StoredToken) : Prop :=
  issuedAt stored < expiresAt stored.

Definition store_ok (tokens : TokenStore) : Prop :=
  map_Forall (fun _ stored => window_ok stored) tokens.

(** The ttl that a [save] call uses. *)
Definition ttl_of (op : StoreOp) : option Z :=
  match op with
  | OpSave _ _ ttlSeconds => Some (default DEFAULT_TTL_SECONDS ttlSeconds)
  | _ => None
  end.

(** ** Auxiliary definitions for the two loops of the store *)

(** A loop that deletes the entries chosen by a test on the stored
    record, as both loops of the store do. *)
Definition delete_loop (test : StoredToken -> bool)
    (entries : list (string * StoredToken)) (tokens : TokenStore)
    : TokenStore :=
  foldl (fun acc entry => if test entry.2 then delete entry.1 acc else acc)
        tokens entries.

(** How many of the entries a loop deletes. *)
Definition hits (test : StoredToken -> bool)
    (entries : list (string * StoredToken)) : nat :=
  length (filter (fun entry => test entry.2 = true) entries).

(** ** The credentials of the demo account *)

Definition admin_credentials : AuthTypes.LoginRequest :=
  {| AuthTypes.username := "admin"; AuthTypes.password := "Admin@123" |}.

(** The one credential pair that [login] accepts. *)
Definition known_valid (payload : AuthTypes.LoginRequest) : Prop :=
  AuthTypes.username payload = "admin"
  /\ AuthTypes.password payload = "Admin@123".

(** ** A model of the JWT interface

    An unsigned serialisation of the claim set: [iat] and [exp] as
    self-delimiting bit strings, followed by [sub]. It shows that the
    laws of [Jwt] can be met and lets the scenarios of the service be
    run. *)

Fixpoint pos_to_string (p : positive) : string :=
  match p with
  | xH => String "."%char EmptyString
  | xO q => String "0"%char (pos_to_string q)
  | xI q => String "1"%char (pos_to_string q)
  end.

Definition Z_to_string (z : Z) : string :=
  match z with
  | Z0 => String "z"%char EmptyString
  | Zpos p => String "p"%char (pos_to_string p)
  | Zneg p => String "n"%char (pos_to_string p)
  end.

Fixpoint read_pos (s : string) : option (positive * string) :=
  match s with
  | EmptyString => None
  | String c rest =>
      if Ascii.eqb c "."%char then Some (xH, rest)
      else if Ascii.eqb c "0"%char then
        match read_pos rest with
        | Some (q, rest') => Some (xO q, rest')
        | None => None
        end
      else if Ascii.eqb c "1"%char then
        match read_pos rest with
        | Some (q, rest') => Some (xI q, rest')
        | None => None
        end
      else None
  end.

Definition read_Z (s : string) : option (Z * string) :=
  match s with
  | EmptyString => None
  | String c rest =>
      if Ascii.eqb c "z"%char then Some (0, rest)
      else if Ascii.eqb c "p"%char then
        match read_pos rest with
        | Some (q, rest') => Some (Zpos q, rest')
        | None => None
        end
      else if Ascii.eqb c "n"%char then
        match read_pos rest with
        | Some (q, rest') => Some (Zneg q, rest')
        | None => None
        end
      else None
  end.

Definition plain_encode (c : Claims) : string :=
  String.append (Z_to_string (iat c))
    (String.append (Z_to_string (exp c)) (sub c)).

Definition plain_decode (token : string) : option Claims :=
  match read_Z token with
  | Some (i, rest) =>
      match read_Z rest with
      | Some (e, subject) => Some {| sub := subject; iat := i; exp := e |}
      | None => None
      end
  | None => None
  end.

Definition plain_verify (token : string) (now : Z) : option Claims :=
  match plain_decode token with
  | Some c => if now <? exp c * 1000 then Some c else None
  | None => None
  end.

(** ** JavaScript numbers in [saveToken]

    [saveToken] computes [now + ttlSeconds * 1000] on binary64 numbers.
    On whole numbers up to [MAX_SAFE_INTEGER] in magnitude, the sum and
    the product included, that arithmetic is the arithmetic of [Z]. *)

Definition expiresAt_number (now ttlSeconds : float) : float :=
  PrimFloat.add now (PrimFloat.mul ttlSeconds 1000%float).

Definition MAX_SAFE_INTEGER : Z := 2 ^ 53 - 1.

Definition safe_integer (z : Z) : Prop := Z.abs z <= MAX_SAFE_INTEGER.

(** A [saveToken] at clock [now] with a ttl of [ttl] whole seconds whose
    arithmetic is exact. *)
Definition exact_save (now ttl : Z) : Prop :=
  safe_integer now
  /\ safe_integer (ttl * 1000)
  /\ safe_integer (now + ttl * 1000).

(** ** The clock reads of [login]

    [login] reads the clock three times: in the [app.jwt.sign] of the
    access token, in that of the refresh token, and in the [Date.now()]
    of [saveToken]. *)

Record ClockReads := mkClockReads {
  atAccessSign : Z;
  atRefreshSign : Z;
  atSave : Z
}.

Definition login_clock_reads `{Jwt} (payload : AuthTypes.LoginRequest)
    (clock : ClockReads) : Svc AuthTypes.TokenResponse :=
  if negb (String.eqb (AuthTypes.username payload) "admin")
     || negb (String.eqb (AuthTypes.password payload) "Admin@123")
  then svc_throw (Error "Invalid credentials")
  else
    let accessToken :=
      jwt_sign (AuthTypes.username payload) expiresIn_15m (atAccessSign clock) in
    let refreshToken :=
      jwt_sign (AuthTypes.username payload) expiresIn_7d (atRefreshSign clock) in
    let* _ := store_update
                (saveToken refreshToken (AuthTypes.username payload)
                           (Some (7 * 24 * 60 * 60)) (atSave clock)) in
    svc_ret {| AuthTypes.accessToken := accessToken;
               AuthTypes.refreshToken := refreshToken;
               AuthTypes.tokenType := "Bearer" |}.

(** ** Outcomes that the properties below name *)

Definition token_error : Exception :=
  Error "Refresh token is invalid or revoked".

(** What [login] stores for the demo account. *)
Definition admin_session (now : Z) : StoredToken :=
  {| username := "admin"; issuedAt := now; expiresAt := now + 604800000 |}.

(** What one pass of the callback of [some] decides for a route. *)
Definition route_matches (pathname route : string) : Prop :=
  pathname = route \/ exists rest, pathname = route +:+ "/" +:+ rest.

(** ** Sample runs *)

(** A session saved with the default ttl, verified, swept and then
    revoked for all of its owner's sessions, next to one with a ttl of
    one second. *)
Definition sample_ops : list (StoreOp * Z) :=
  [ (OpSave "r1" "admin" None, 1000);
    (OpSave "r2" "guest" (Some 1), 1500);
    (OpVerify "r1", 2000);
    (OpSweep, 3000);
    (OpRevoke "r9", 3500);
    (OpRevokeAll "admin", 4000);
    (OpSave "r3" "admin" (Some 60), 5000) ].

Definition sample_store : TokenStore :=
  saveToken "r2" "guest" (Some 1) 1500
    (saveToken "r1" "admin" None 1000 ∅).

(** ** token.store.ts: [getStats] *)

Module TokenStats.

(** One element of the [tokens] array that [getStats] returns. *)
Record Entry := mkEntry {
  token : string;
  username : string;
  issuedAt : string;
  expiresAt : string;
  isExpired : bool
}.

Record Stats := mkStats {
  totalTokens : nat;
  tokens : list Entry
}.

End TokenStats.

(** The largest time value of a JavaScript [Date], in milliseconds. *)
Definition MAX_TIME_VALUE : Z := 8640000000000000.

(** A time value that [toISOString] can print. *)
Definition printable (ms : Z) : Prop := Z.abs ms <= MAX_TIME_VALUE.

(** [new Date(ms).toISOString()]: a [RangeError] ([None]) when [ms] is
    not a time value of a [Date], the text the runtime prints otherwise.
    The text itself, [iso ms], is left to the runtime. *)
Definition Date_toISOString (iso : Z -> string) (ms : Z) : option string :=
  if Z.abs ms <=? MAX_TIME_VALUE then Some (iso ms) else None.

(** The callback that [getStats] maps over the entries. *)
Definition getStats_entry (iso : Z -> string) (now : Z)
    (entry : string * StoredToken) : option TokenStats.Entry :=
  issued ← Date_toISOString iso (issuedAt entry.2);
  expires ← Date_toISOString iso (expiresAt entry.2);
  Some {| TokenStats.token := String.substring 0 10 entry.1 +:+ "...";
          TokenStats.username := username entry.2;
          TokenStats.issuedAt := issued;
          TokenStats.expiresAt := expires;
          TokenStats.isExpired := now >? expiresAt entry.2 |}.

(** [getStats()] over the entries [entries] that the iterator yields;
    [None] when a [toISOString] throws. *)
Definition getStats_of (iso : Z -> string) (now : Z)
    (entries : list (string * StoredToken)) (tokens : TokenStore)
    : option TokenStats.Stats :=
  listed ← mapM (getStats_entry iso now) entries;
  Some {| TokenStats.totalTokens := size tokens;
          TokenStats.tokens := listed |}.

Definition getStats (iso : Z -> string) (now : Z) (tokens : TokenStore)
    : option TokenStats.Stats :=
  getStats_of iso now (map_to_list tokens) tokens.

(** ** The public-routes configuration and config/api.constants.ts *)

Definition PUBLIC_ROUTES : list string :=
  ["/health"; "/auth/login"; "/auth/refresh"].

Definition isPublicRoute (pathname : string) : bool :=
  existsb (fun route =>
             if String.eqb pathname route then true
             else if String.prefix (route +:+ "/") pathname then true
             else false)
          PUBLIC_ROUTES.

Definition API_PREFIX : string := "/api/v1".

(** ** plugins/jwt.plugin.ts and auth.routes.ts

    [request.jwtVerify()] takes the bearer token of the Authorization
    header ([None] when the header carries none) and verifies it as
    [app.jwt.verify] does. A handler behind [preHandler: [app.authenticate]]
    runs only when [authenticate] has not sent a reply. *)

Module AuthRoutes.

(** What a route sends: a reply of the controller or of [authenticate],
    or the [{ user: request.user }] of [me]. *)
Inductive Response :=
| Sent (reply : AuthController.Reply)
| SentUser (user : Claims).

Definition unauthorized : AuthController.Reply :=
  AuthController.mkReply 401
    (AuthController.MessageBody "Unauthorized - Invalid or missing JWT token").

Section with_jwt.

Context `{Jwt}.

(** [app.authenticate]: the decoded [request.user], or the 401 reply. *)
Definition authenticate (bearer : option string) (now : Z)
    : AuthController.Reply + Claims :=
  match bearer with
  | None => inl unauthorized
  | Some accessToken =>
      match jwt_verify accessToken now with
      | Some user => inr user
      | None => inl unauthorized
      end
  end.

(** [GET /me]. *)
Definition me (bearer : option string) (now : Z) : Response :=
  match authenticate bearer now with
  | inl reply => Sent reply
  | inr user => SentUser user
  end.

(** [POST /logout]. *)
Definition logout (bearer : option string) (refreshToken : string) (now : Z)
    (tokens : TokenStore) : Response * TokenStore :=
  match authenticate bearer now with
  | inl reply => (Sent reply, tokens)
  | inr _ =>
      (Sent (AuthController.logout refreshToken tokens).1,
       (AuthController.logout refreshToken tokens).2)
  end.

End with_jwt.
End AuthRoutes.

(** ** Properties of the store *)

Section store_loops.

Variable test : StoredToken -> bool.

Local Abbreviation delete_loop := (delete_loop test).

Lemma delete_loop_cons k v entries (tokens : TokenStore) :
  delete_loop ((k, v) :: entries) tokens
  = delete_loop entries (if test v then delete k tokens else tokens).
Proof. reflexivity. Qed.

Lemma delete_loop_absent entries (tokens : TokenStore) k :
  tokens !! k = None -> delete_loop entries tokens !! k = None.
Proof.
  revert tokens. induction entries as [|[k0 v0] entries IH]; intros tokens Hk.
  - exact Hk.
  - rewrite delete_loop_cons. apply IH. destruct (test v0); [|exact Hk].
    rewrite lookup_delete. case_decide; [reflexivity | exact Hk].
Qed.

Lemma delete_loop_hit entries (tokens : TokenStore) k v :
  (k, v) ∈ entries -> test v = true ->
  delete_loop entries tokens !! k = None.
Proof.
  revert tokens. induction entries as [|[k0 v0] entries IH]; intros tokens Hin Ht.
  - inversion Hin.
  - apply elem_of_cons in Hin as [Heq | Hin].
    + injection Heq as <- <-. rewrite delete_loop_cons, Ht.
      apply delete_loop_absent, lookup_delete_eq.
    + rewrite delete_loop_cons. now apply IH.
Qed.

Lemma delete_loop_miss entries (tokens : TokenStore) k :
  (forall v, (k, v) ∈ entries -> test v = false) ->
  delete_loop entries tokens !! k = tokens !! k.
Proof.
  revert tokens. induction entries as [|[k0 v0] entries IH]; intros tokens Hall.
  - reflexivity.
  - rewrite delete_loop_cons, IH.
    + destruct (test v0) eqn:Ht; [|reflexivity].
      apply lookup_delete_ne. intros ->.
      specialize (Hall v0 (list_elem_of_here _ _)). congruence.
    + intros v Hv. apply Hall. now apply list_elem_of_further.
Qed.

(** Over the entries of the store itself the loop is a filter. *)
Lemma delete_loop_filter (tokens : TokenStore) :
  delete_loop (map_to_list tokens) tokens
  = filter (fun entry => test entry.2 = false) tokens.
Proof.
  apply map_eq. intros k.
  destruct (tokens !! k) as [v|] eqn:Hk.
  - destruct (test v) eqn:Ht.
    + rewrite (delete_loop_hit _ _ k v); [| now apply elem_of_map_to_list | exact Ht].
      symmetry. apply map_lookup_filter_None. right. intros v' Hv'. cbn. congruence.
    + rewrite delete_loop_miss.
      * rewrite Hk. symmetry. apply map_lookup_filter_Some. easy.
      * intros v' Hv'. apply elem_of_map_to_list in Hv'. congruence.
  - rewrite delete_loop_absent by exact Hk.
    symmetry. apply map_lookup_filter_None. now left.
Qed.

End store_loops.

Lemma hits_cons test k v entries :
  hits test ((k, v) :: entries)
  = ((if test v then 1 else 0) + hits test entries)%nat.
Proof.
  unfold hits. rewrite filter_cons. cbn.
  destruct (test v); case_decide; try congruence; reflexivity.
Qed.

(** Each deletion of the loop removes one record of the store, when the
    entries are those of the store and no key is listed twice. *)
Lemma delete_loop_size test entries (tokens : TokenStore) :
  NoDup entries.*1 ->
  (forall k v, (k, v) ∈ entries -> tokens !! k = Some v) ->
  (size (delete_loop test entries tokens) + hits test entries)%nat
  = size tokens.
Proof.
  revert tokens. induction entries as [|[k0 v0] entries IH]; intros tokens Hnd Hin.
  - cbn. lia.
  - rewrite delete_loop_cons, hits_cons.
    rewrite fmap_cons in Hnd. apply NoDup_cons in Hnd as [Hk0 Hnd].
    assert (Hpres : tokens !! k0 = Some v0) by apply Hin, list_elem_of_here.
    destruct (test v0).
    + specialize (IH (delete k0 tokens) Hnd).
      rewrite Nat.add_assoc, (Nat.add_comm _ 1), <- Nat.add_assoc, IH.
      * rewrite map_size_delete, Hpres. cbn.
        assert (size tokens <> 0%nat); [|lia].
        intros Hz. apply map_size_empty_inv in Hz. subst tokens.
        now rewrite lookup_empty in Hpres.
      * intros k v Hkv. rewrite lookup_delete_ne.
        -- apply Hin. now apply list_elem_of_further.
        -- intros ->. apply Hk0. apply list_elem_of_fmap. now exists (k, v).
    + cbn. apply IH; [exact Hnd|].
      intros k v Hkv. apply Hin. now apply list_elem_of_further.
Qed.

(** The loop of [revokeAllUserTokens] is such a deleting loop. *)
Lemma revokeAllUserTokens_loop_delete user entries (tokens : TokenStore) :
  revokeAllUserTokens_loop user entries tokens
  = delete_loop (fun stored => String.eqb (username stored) user) entries tokens.
Proof. reflexivity. Qed.

(** So is the loop of [cleanupExpired], which also counts its deletions. *)
Lemma cleanupExpired_loop_from now entries (tokens : TokenStore) (cleaned : nat) :
  foldl (fun acc entry =>
           if now >? expiresAt entry.2
           then (S acc.1, delete entry.1 acc.2)
           else acc)
        (cleaned, tokens) entries
  = ((cleaned + hits (fun stored => now >? expiresAt stored) entries)%nat,
     delete_loop (fun stored => now >? expiresAt stored) entries tokens).
Proof.
  revert tokens cleaned.
  induction entries as [|[k0 v0] entries IH]; intros tokens cleaned.
  - cbn. f_equal. unfold hits. cbn. lia.
  - rewrite delete_loop_cons, hits_cons. cbn [foldl fst snd].
    destruct (now >? expiresAt v0); rewrite IH; f_equal; lia.
Qed.

Lemma cleanupExpired_loop_delete now entries (tokens : TokenStore) :
  cleanupExpired_loop now entries tokens
  = (hits (fun stored => now >? expiresAt stored) entries,
     delete_loop (fun stored => now >? expiresAt stored) entries tokens).
Proof. unfold cleanupExpired_loop. now rewrite cleanupExpired_loop_from. Qed.

Lemma gtb_expired now (entry : string * StoredToken) :
  (now >? expiresAt entry.2) = true <-> expired now entry.
Proof. unfold expired. rewrite Z.gtb_ltb, Z.ltb_lt. reflexivity. Qed.

Lemma gtb_not_expired now (entry : string * StoredToken) :
  (now >? expiresAt entry.2) = false <-> ~ expired now entry.
Proof. rewrite <- gtb_expired. destruct (now >? _); split; congruence. Qed.

(** [cleanupExpired] keeps the records that are not expired and returns
    the number of those that are. *)
Lemma cleanupExpired_filter now (tokens : TokenStore) :
  cleanupExpired now tokens
  = (size (filter (expired now) tokens),
     filter (fun entry => ~ expired now entry) tokens).
Proof.
  unfold cleanupExpired. rewrite cleanupExpired_loop_delete.
  pose proof (delete_loop_size (fun stored => now >? expiresAt stored)
                (map_to_list tokens) tokens
                (NoDup_fst_map_to_list tokens)) as Hsize.
  rewrite delete_loop_filter in *.
  assert (Hkeep : filter (fun entry : string * StoredToken =>
                            (now >? expiresAt entry.2) = false) tokens
                  = filter (fun entry => ~ expired now entry) tokens).
  { apply map_filter_ext. intros k v _. apply gtb_not_expired. }
  rewrite Hkeep in *. f_equal.
  pose proof (map_size_disj_union _ _
                (map_disjoint_filter_complement (expired now) tokens)) as Hsplit.
  rewrite map_filter_union_complement in Hsplit.
  specialize (Hsize ltac:(intros k v; apply elem_of_map_to_list)).
  lia.
Qed.

(** The same holds for every enumeration of the entries of the store,
    whatever its order: the result of either loop does not depend on the
    order in which the iterator yields the entries. *)
Lemma delete_loop_enumeration test entries (tokens : TokenStore) :
  (forall k v, (k, v) ∈ entries <-> tokens !! k = Some v) ->
  delete_loop test entries tokens
  = delete_loop test (map_to_list tokens) tokens.
Proof.
  intros Henum. apply map_eq. intros k.
  destruct (tokens !! k) as [v|] eqn:Hk.
  - destruct (test v) eqn:Ht.
    + rewrite !(delete_loop_hit _ _ _ k v); auto.
      * now apply elem_of_map_to_list.
      * now apply Henum.
    + rewrite !delete_loop_miss; auto.
      * intros v' Hv'. apply elem_of_map_to_list in Hv'. congruence.
      * intros v' Hv'. apply Henum in Hv'. congruence.
  - now rewrite !delete_loop_absent.
Qed.

Lemma cleanupExpired_loop_enumeration now entries (tokens : TokenStore) :
  NoDup entries.*1 ->
  (forall k v, (k, v) ∈ entries <-> tokens !! k = Some v) ->
  cleanupExpired_loop now entries tokens = cleanupExpired now tokens.
Proof.
  intros Hnd Henum. unfold cleanupExpired.
  rewrite !cleanupExpired_loop_delete.
  pose proof (delete_loop_size (fun stored => now >? expiresAt stored)
                entries tokens Hnd ltac:(intros k v; apply Henum)) as H1.
  pose proof (delete_loop_size (fun stored => now >? expiresAt stored)
                (map_to_list tokens) tokens (NoDup_fst_map_to_list tokens)
                ltac:(intros k v; apply elem_of_map_to_list)) as H2.
  rewrite (delete_loop_enumeration _ entries) in * by exact Henum.
  f_equal. lia.
Qed.

Lemma revokeAllUserTokens_lookup user (tokens : TokenStore) token :
  revokeAllUserTokens user tokens !! token
  = match tokens !! token with
    | Some stored =>
        if decide (username stored = user) then None else Some stored
    | None => None
    end.
Proof.
  unfold revokeAllUserTokens.
  rewrite revokeAllUserTokens_loop_delete, delete_loop_filter.
  destruct (tokens !! token) as [stored|] eqn:Hk.
  - case_decide as Hu.
    + apply map_lookup_filter_None. right. intros v Hv. cbn.
      assert (v = stored) by congruence. subst v.
      apply String.eqb_eq in Hu. congruence.
    + apply map_lookup_filter_Some. split; [exact Hk|]. cbn.
      now apply String.eqb_neq.
  - apply map_lookup_filter_None. now left.
Qed.

Lemma cleanupExpired_lookup now (tokens : TokenStore) token :
  (cleanupExpired now tokens).2 !! token
  = match tokens !! token with
    | Some stored =>
        if decide (expiresAt stored < now) then None else Some stored
    | None => None
    end.
Proof.
  rewrite cleanupExpired_filter. cbn [snd].
  destruct (tokens !! token) as [stored|] eqn:Hk.
  - case_decide as He.
    + apply map_lookup_filter_None. right. intros v Hv.
      assert (v = stored) by congruence. subst v. unfold expired. cbn. lia.
    + apply map_lookup_filter_Some. split; [exact Hk|]. exact He.
  - apply map_lookup_filter_None. now left.
Qed.

(** Removing a record that is not expired does not change the count of
    [cleanupExpired]; removing an expired one lowers it by one. *)
Lemma cleanupExpired_count_delete now (tokens : TokenStore) token stored :
  tokens !! token = Some stored ->
  (cleanupExpired now tokens).1
  = ((if decide (expiresAt stored < now)%Z then 1 else 0)
     + (cleanupExpired now (delete token tokens)).1)%nat.
Proof.
  intros Hk. rewrite !cleanupExpired_filter. cbn [fst].
  rewrite map_filter_delete, map_size_delete.
  case_decide as He.
  - assert (Hin : filter (expired now) tokens !! token = Some stored).
    { apply map_lookup_filter_Some. split; [exact Hk | exact He]. }
    rewrite Hin.
    assert (size (filter (expired now) tokens) <> 0%nat); [|cbn; lia].
    intros Hz. apply map_size_empty_inv in Hz.
    rewrite Hz, lookup_empty in Hin. discriminate.
  - assert (Hout : filter (expired now) tokens !! token = None).
    { apply map_lookup_filter_None. right. intros v Hv.
      assert (v = stored) by congruence. now subst v. }
    now rewrite Hout.
Qed.

(** ** The Session Store contract *)

(** C1. [verifyToken] returns not-found ([None]) for a token with no
    record. For a record with [now > expiresAt] it deletes the record and
    returns not-found, after which the token has no record, every later
    [verifyToken] of it is not-found and leaves the store as it is, and
    [cleanupExpired] finds one record fewer to count than it would have
    found before. Otherwise it returns the owner of the record and leaves
    the store unchanged. *)
Theorem verifyToken_spec (tokens : TokenStore) (token : string) (now : Z) :
  (tokens !! token = None -> verifyToken token now tokens = (None, tokens))
  /\ (forall stored,
        tokens !! token = Some stored -> now > expiresAt stored ->
        let after := delete token tokens in
        verifyToken token now tokens = (None, after)
        /\ after !! token = None
        /\ (forall now', verifyToken token now' after = (None, after))
        /\ (forall now', (cleanupExpired now' after).2 !! token = None)
        /\ (forall now', now <= now' ->
              (cleanupExpired now' tokens).1
              = S (cleanupExpired now' after).1))
  /\ (forall stored,
        tokens !! token = Some stored -> ~ now > expiresAt stored ->
        verifyToken token now tokens = (Some (username stored), tokens)).
Proof.
  unfold verifyToken. split; [|split].
  - now intros ->.
  - intros stored Hk Hdead. cbn zeta. rewrite Hk. repeat split.
    + destruct (Z.gtb_spec now (expiresAt stored)); [reflexivity | lia].
    + apply lookup_delete_eq.
    + intros now'. now rewrite lookup_delete_eq.
    + intros now'. rewrite cleanupExpired_lookup, lookup_delete_eq. reflexivity.
    + intros now' Hlater.
      rewrite (cleanupExpired_count_delete now' tokens token stored Hk).
      case_decide; [reflexivity | lia].
  - intros stored Hk Hlive. rewrite Hk.
    destruct (Z.gtb_spec now (expiresAt stored)); [lia | reflexivity].
Qed.

(** C5. A token verified at the very clock value at which it was saved,
    with a ttl that is not negative (the default ttl included), yields
    the owner it was saved for. *)
Theorem verifyToken_after_saveToken (tokens : TokenStore)
    (token owner : string) (ttlSeconds : option Z) (now : Z) :
  0 <= default DEFAULT_TTL_SECONDS ttlSeconds ->
  verifyToken token now (saveToken token owner ttlSeconds now tokens)
  = (Some owner, saveToken token owner ttlSeconds now tokens).
Proof.
  intros Httl. unfold verifyToken, saveToken.
  rewrite lookup_insert_eq. cbn [expiresAt username].
  destruct (Z.gtb_spec now (now + default DEFAULT_TTL_SECONDS ttlSeconds * 1000));
    [lia | reflexivity].
Qed.

(** C6. [revokeToken] is a total function of the store; revoking twice
    gives the store that revoking once gives, the revoked token has no
    record afterwards, and revoking a token that has no record returns
    the store as it was. *)
Theorem revokeToken_idempotent (tokens : TokenStore) (token : string) :
  revokeToken token (revokeToken token tokens) = revokeToken token tokens
  /\ revokeToken token tokens !! token = None
  /\ (tokens !! token = None -> revokeToken token tokens = tokens).
Proof.
  unfold revokeToken. split; [|split].
  - apply delete_id, lookup_delete_eq.
  - apply lookup_delete_eq.
  - apply delete_id.
Qed.

(** C7. After [revokeAllUserTokens user] a token has a record exactly
    when it had one before whose owner is not [user], and that record is
    the one it had: no record of [user] remains, and every record of
    another owner is still there, unchanged. *)
Theorem revokeAllUserTokens_spec (tokens : TokenStore) (user : string) :
  let after := revokeAllUserTokens user tokens in
  (forall token stored,
     after !! token = Some stored <->
     tokens !! token = Some stored /\ username stored <> user)
  /\ (forall token stored,
        after !! token = Some stored -> username stored <> user)
  /\ (forall token stored,
        tokens !! token = Some stored -> username stored <> user ->
        after !! token = Some stored).
Proof.
  assert (Hiff : forall token stored,
             revokeAllUserTokens user tokens !! token = Some stored <->
             tokens !! token = Some stored /\ username stored <> user).
  { intros token stored. rewrite revokeAllUserTokens_lookup.
    destruct (tokens !! token) as [v|]; [|intuition congruence].
    case_decide; intuition congruence. }
  cbn zeta. split; [exact Hiff | split].
  - intros token stored Hafter. now apply Hiff in Hafter.
  - intros token stored Hk Hu. now apply Hiff.
Qed.

(** C8. After [cleanupExpired] at clock [now] a token has a record
    exactly when it had one before with [expiresAt < now] false, and that
    record is the one it had; the number returned is the number of
    records with [expiresAt < now], which is the number of records that
    the store lost. *)
Theorem cleanupExpired_spec (tokens : TokenStore) (now : Z) :
  let cleaned := (cleanupExpired now tokens).1 in
  let after := (cleanupExpired now tokens).2 in
  (forall token stored,
     after !! token = Some stored <->
     tokens !! token = Some stored /\ ~ expiresAt stored < now)
  /\ cleaned = size (filter (expired now) tokens)
  /\ (size after + cleaned)%nat = size tokens.
Proof.
  cbn zeta. split; [|split].
  - intros token stored. rewrite cleanupExpired_lookup.
    destruct (tokens !! token) as [v|]; [|intuition congruence].
    case_decide as He; split.
    + discriminate.
    + intros [Heq Hlive]. injection Heq as ->. contradiction.
    + intros Heq. injection Heq as ->. now split.
    + intros [Heq _]. exact Heq.
  - now rewrite cleanupExpired_filter.
  - rewrite cleanupExpired_filter. cbn [fst snd].
    pose proof (map_size_disj_union _ _
                  (map_disjoint_filter_complement (expired now) tokens)) as Hsplit.
    rewrite map_filter_union_complement in Hsplit. lia.
Qed.

(** C10. Expiry is strict. A record whose [expiresAt] equals the clock is
    valid: [verifyToken] returns its owner and keeps the store, and
    [cleanupExpired] keeps the record and counts what it would count
    without it. In general [verifyToken] answers not-found for a stored
    token, and [cleanupExpired] removes it, exactly when the clock is
    strictly greater than [expiresAt]. *)
Theorem expiry_is_strict (tokens : TokenStore) (token : string)
    (stored : StoredToken) (now : Z) :
  tokens !! token = Some stored ->
  (expiresAt stored = now ->
     verifyToken token now tokens = (Some (username stored), tokens)
     /\ (cleanupExpired now tokens).2 !! token = Some stored
     /\ (cleanupExpired now tokens).1
        = (cleanupExpired now (delete token tokens)).1)
  /\ ((verifyToken token now tokens).1 = None <-> now > expiresAt stored)
  /\ ((cleanupExpired now tokens).2 !! token = None <-> now > expiresAt stored).
Proof.
  intros Hk. split; [|split].
  - intros Heq. split; [|split].
    + unfold verifyToken. rewrite Hk.
      destruct (Z.gtb_spec now (expiresAt stored)); [lia | reflexivity].
    + rewrite cleanupExpired_lookup, Hk. case_decide; [lia | reflexivity].
    + rewrite (cleanupExpired_count_delete now tokens token stored Hk).
      case_decide; [lia | reflexivity].
  - unfold verifyToken. rewrite Hk.
    destruct (Z.gtb_spec now (expiresAt stored)); cbn; split;
      (lia || congruence).
  - rewrite cleanupExpired_lookup, Hk. case_decide; split; (lia || congruence).
Qed.

(** *** The validity window of a record *)

Lemma store_ok_delete (tokens : TokenStore) token :
  store_ok tokens -> store_ok (delete token tokens).
Proof. apply map_Forall_delete. Qed.

Lemma store_ok_run_op (tokens : TokenStore) op now :
  (forall ttl, ttl_of op = Some ttl -> 0 < ttl) ->
  store_ok tokens -> store_ok (run_op op now tokens).
Proof.
  intros Httl Hok. destruct op as [token user ttlSeconds|token|token|user|]; cbn.
  - apply map_Forall_insert_2; [|exact Hok].
    unfold window_ok. cbn. specialize (Httl _ eq_refl). lia.
  - unfold verifyToken. destruct (tokens !! token) as [stored|]; [|exact Hok].
    destruct (now >? expiresAt stored); [|exact Hok].
    now apply store_ok_delete.
  - now apply store_ok_delete.
  - intros token stored Hafter. apply (Hok token).
    rewrite revokeAllUserTokens_lookup in Hafter.
    destruct (tokens !! token) as [v|]; [|discriminate].
    case_decide; [discriminate | exact Hafter].
  - intros token stored Hafter. apply (Hok token).
    rewrite cleanupExpired_lookup in Hafter.
    destruct (tokens !! token) as [v|]; [|discriminate].
    case_decide; [discriminate | exact Hafter].
Qed.

(** C2, as the code has it. [saveToken] does not look at its ttl: a ttl
    of zero stores a record whose [expiresAt] equals its [issuedAt]. In
    the binary64 arithmetic of the source so does a ttl above zero that
    is small enough; the one below is the number that [1e-7] denotes. *)
Lemma saveToken_zero_ttl_breaks_window :
  exists stored,
    run_ops [(OpSave "t" "admin" (Some 0), 1000)] ∅ !! "t" = Some stored
    /\ issuedAt stored = 1000
    /\ expiresAt stored = 1000
    /\ ~ expiresAt stored > issuedAt stored
    /\ PrimFloat.ltb 0%float 0x1.ad7f29abcaf48p-24%float = true
    /\ expiresAt_number 1700000000000%float 0x1.ad7f29abcaf48p-24%float
       = 1700000000000%float.
Proof.
  eexists. split; [|split; [|split; [|split; [|split]]]].
  - cbn. apply lookup_insert_eq.
  - reflexivity.
  - reflexivity.
  - cbn. lia.
  - reflexivity.
  - reflexivity.
Qed.

(** On whole seconds the binary64 arithmetic of the source gives what
    [saveToken] gives: the call of [login], and a ttl of one minute. *)
Example expiresAt_number_whole_seconds :
  expiresAt_number 1700000000000%float 604800%float = 1700604800000%float
  /\ expiresAt_number 1000%float 60%float = 61000%float
  /\ expiresAt
       {| username := "admin"; issuedAt := 1700000000000;
          expiresAt := 1700000000000 + 604800 * 1000 |}
     = 1700604800000.
Proof. repeat split; reflexivity. Qed.

(** C2, amended. When every [saveToken] of a sequence of store
    operations is given a ttl that is a whole number of seconds greater
    than zero (or none, so that the default applies), at a clock value
    that with the ttl is in the range of exact arithmetic, every record
    of the store after the sequence has [expiresAt > issuedAt], provided
    the records it started from had. *)
Theorem window_ok_run_ops (ops : list (StoreOp * Z)) (tokens : TokenStore) :
  Forall (fun call =>
            forall ttl,
              ttl_of call.1 = Some ttl -> 0 < ttl /\ exact_save call.2 ttl)
         ops ->
  (forall token stored,
     tokens !! token = Some stored -> expiresAt stored > issuedAt stored) ->
  forall token stored,
    run_ops ops tokens !! token = Some stored ->
    expiresAt stored > issuedAt stored.
Proof.
  intros Hops Hstart.
  assert (Hok : store_ok tokens).
  { intros token stored Hk. unfold window_ok. specialize (Hstart _ _ Hk). lia. }
  clear Hstart.
  assert (Hend : store_ok (run_ops ops tokens)).
  { revert tokens Hok. induction Hops as [|[op now] ops Hop Hops IH];
      intros tokens Hok.
    - exact Hok.
    - cbn. apply IH. apply store_ok_run_op; [|exact Hok].
      intros ttl Httl. now apply Hop. }
  intros token stored Hk. specialize (Hend _ _ Hk). unfold window_ok in Hend. lia.
Qed.

Lemma window_ok_run_ops_witness :
  run_ops sample_ops ∅ !! "r3"
  = Some {| username := "admin"; issuedAt := 5000; expiresAt := 65000 |}
  /\ 65000 > 5000.
Proof.
  assert (Hlook : run_ops sample_ops ∅ !! "r3"
                  = Some {| username := "admin"; issuedAt := 5000;
                            expiresAt := 65000 |})
    by (vm_compute; reflexivity).
  split; [exact Hlook|].
  apply (window_ok_run_ops sample_ops ∅ ltac:(
           unfold sample_ops;
           repeat (apply List.Forall_cons;
                   [cbn; intros ttl Httl; inversion Httl;
                    unfold exact_save, safe_integer; vm_compute;
                    repeat split; discriminate |]);
           apply List.Forall_nil)
         ltac:(intros token stored Hk; rewrite lookup_empty in Hk; discriminate)
         "r3" _ Hlook).
Defined.

(** ** The model meets the laws of the JWT interface *)

Lemma read_pos_to_string p rest :
  read_pos (String.append (pos_to_string p) rest) = Some (p, rest).
Proof.
  induction p as [q IH | q IH |]; simpl;
    [now rewrite IH | now rewrite IH | reflexivity].
Qed.

Lemma read_Z_to_string z rest :
  read_Z (String.append (Z_to_string z) rest) = Some (z, rest).
Proof.
  destruct z as [|p|p]; simpl; [reflexivity | |];
    now rewrite read_pos_to_string.
Qed.

Lemma plain_decode_encode c : plain_decode (plain_encode c) = Some c.
Proof.
  unfold plain_decode, plain_encode.
  rewrite !read_Z_to_string. now destruct c.
Qed.

Lemma plain_encode_inj c1 c2 : plain_encode c1 = plain_encode c2 -> c1 = c2.
Proof.
  intros Heq. apply (f_equal plain_decode) in Heq.
  rewrite !plain_decode_encode in Heq. congruence.
Qed.

Lemma plain_verify_encode c now :
  iat c * 1000 <= now -> now < exp c * 1000 ->
  plain_verify (plain_encode c) now = Some c.
Proof.
  intros _ Hlive. unfold plain_verify. rewrite plain_decode_encode.
  destruct (Z.ltb_spec now (exp c * 1000)); [reflexivity | lia].
Qed.

Definition plain_jwt : Jwt :=
  {| jwt_encode := plain_encode;
     jwt_verify := plain_verify;
     jwt_encode_inj := plain_encode_inj;
     jwt_verify_encode := plain_verify_encode |}.

(** ** The Session Service *)

(** A saved token verifies up to and including its [expiresAt]. *)
Lemma verifyToken_saved (tokens : TokenStore) token owner ttlSeconds now now' :
  now' <= now + default DEFAULT_TTL_SECONDS ttlSeconds * 1000 ->
  verifyToken token now' (saveToken token owner ttlSeconds now tokens)
  = (Some owner, saveToken token owner ttlSeconds now tokens).
Proof.
  intros Hlive. unfold verifyToken, saveToken.
  rewrite lookup_insert_eq. cbn [expiresAt username].
  destruct (Z.gtb_spec now' (now + default DEFAULT_TTL_SECONDS ttlSeconds * 1000));
    [lia | reflexivity].
Qed.

Lemma login_rejects `{Jwt} payload now (tokens : TokenStore) :
  ~ known_valid payload ->
  AuthService.login payload now tokens
  = (inl (Error "Invalid credentials"), tokens).
Proof.
  intros Hbad. unfold AuthService.login.
  destruct (String.eqb (AuthTypes.username payload) "admin") eqn:Hu;
    [|reflexivity].
  destruct (String.eqb (AuthTypes.password payload) "Admin@123") eqn:Hp;
    [|reflexivity].
  exfalso. apply Hbad. split; now apply String.eqb_eq.
Qed.

Lemma login_accepts `{Jwt} now (tokens : TokenStore) :
  AuthService.login admin_credentials now tokens
  = (inr {| AuthTypes.accessToken := jwt_sign "admin" expiresIn_15m now;
            AuthTypes.refreshToken := jwt_sign "admin" expiresIn_7d now;
            AuthTypes.tokenType := "Bearer" |},
     saveToken (jwt_sign "admin" expiresIn_7d now) "admin"
               (Some (7 * 24 * 60 * 60)) now tokens).
Proof. reflexivity. Qed.

(** Two access tokens of one subject are the same string exactly when
    they were signed in the same clock second. *)
Lemma jwt_sign_same_second `{Jwt} subject expiresIn now1 now2 :
  jwt_sign subject expiresIn now2 = jwt_sign subject expiresIn now1
  <-> now2 / 1000 = now1 / 1000.
Proof.
  unfold jwt_sign. split.
  - intros Heq. apply jwt_encode_inj in Heq. congruence.
  - now intros ->.
Qed.

(** C3, as the code has it. In the model of the JWT interface, a
    [refresh] in the clock second of the [login] returns the very access
    token that [login] returned, and a [refresh] eight days after the
    [login] throws. *)
Lemma refresh_same_second_same_access_token :
  exists issued tokens1,
    @AuthService.login plain_jwt admin_credentials 1700000000000 ∅
    = (inr issued, tokens1)
    /\ (exists renewed,
          @AuthService.refresh plain_jwt
            (AuthTypes.refreshToken issued) 1700000000400 tokens1
          = (inr renewed, tokens1)
          /\ AuthTypes.accessToken renewed = AuthTypes.accessToken issued)
    /\ (@AuthService.refresh plain_jwt
          (AuthTypes.refreshToken issued)
          (1700000000000 + 8 * 24 * 60 * 60 * 1000) tokens1).1
       = inl (Error "Refresh token is invalid or revoked").
Proof.
  eexists _, _. split; [apply login_accepts|]. split.
  - eexists. split; [vm_compute; reflexivity | vm_compute; reflexivity].
  - vm_compute. reflexivity.
Qed.

(** C3, amended. [login] with the known-valid pair at clock [now1]
    succeeds; a [refresh] of the refresh token it returned, at a clock
    [now2] that is not before [now1] and is before the [exp] of that
    token, succeeds, leaves the store as it is and returns the refresh
    token it was given; the access token it returns differs from the one
    [login] returned exactly when the two calls fall in different clock
    seconds. *)
Theorem login_then_refresh `{Jwt} (tokens : TokenStore) (now1 now2 : Z) :
  now1 <= now2 ->
  now2 < (now1 / 1000 + expiresIn_7d) * 1000 ->
  exists accessToken1 refreshToken1 accessToken2 tokens1,
    AuthService.login admin_credentials now1 tokens
    = (inr {| AuthTypes.accessToken := accessToken1;
              AuthTypes.refreshToken := refreshToken1;
              AuthTypes.tokenType := "Bearer" |}, tokens1)
    /\ AuthService.refresh refreshToken1 now2 tokens1
       = (inr {| AuthTypes.accessToken := accessToken2;
                 AuthTypes.refreshToken := refreshToken1;
                 AuthTypes.tokenType := "Bearer" |}, tokens1)
    /\ (accessToken2 <> accessToken1 <-> now2 / 1000 <> now1 / 1000).
Proof.
  intros Hafter Hlive. unfold expiresIn_7d in Hlive.
  assert (Hfloor : 1000 * (now1 / 1000) <= now1) by (apply Z.mul_div_le; lia).
  exists (jwt_sign "admin" expiresIn_15m now1),
         (jwt_sign "admin" expiresIn_7d now1),
         (jwt_sign "admin" expiresIn_15m now2).
  eexists. split; [apply login_accepts|]. split.
  - unfold AuthService.refresh, svc_bind, store_call.
    rewrite verifyToken_saved by (cbv [default from_option id]; lia).
    cbn [fst snd falsy]. change (String.eqb "admin" "") with false. cbv iota.
    unfold jwt_sign at 1. rewrite jwt_verify_encode.
    + reflexivity.
    + cbn [iat]. lia.
    + cbn [exp]. unfold expiresIn_7d. lia.
  - now rewrite jwt_sign_same_second.
Qed.

Lemma login_then_refresh_witness :
  exists accessToken1 refreshToken1 accessToken2 tokens1,
    @AuthService.login plain_jwt admin_credentials 1700000000000 ∅
    = (inr {| AuthTypes.accessToken := accessToken1;
              AuthTypes.refreshToken := refreshToken1;
              AuthTypes.tokenType := "Bearer" |}, tokens1)
    /\ @AuthService.refresh plain_jwt refreshToken1 1700000900000 tokens1
       = (inr {| AuthTypes.accessToken := accessToken2;
                 AuthTypes.refreshToken := refreshToken1;
                 AuthTypes.tokenType := "Bearer" |}, tokens1)
    /\ (accessToken2 <> accessToken1
        <-> 1700000900000 / 1000 <> 1700000000000 / 1000).
Proof.
  apply (@login_then_refresh plain_jwt ∅ 1700000000000 1700000900000).
  - lia.
  - reflexivity.
Defined.

(** C4. Two [login] calls with credential pairs other than the
    known-valid one end the same way, whatever is wrong in each pair: the
    service throws the same error and leaves the store untouched, and
    the controller sends the same 401 reply. *)
Theorem login_rejection_uniform `{Jwt}
    (payload1 payload2 : AuthTypes.LoginRequest) (now1 now2 : Z)
    (tokens1 tokens2 : TokenStore) :
  ~ known_valid payload1 ->
  ~ known_valid payload2 ->
  AuthService.login payload1 now1 tokens1
  = (inl (Error "Invalid credentials"), tokens1)
  /\ AuthService.login payload2 now2 tokens2
     = (inl (Error "Invalid credentials"), tokens2)
  /\ (AuthService.login payload1 now1 tokens1).1
     = (AuthService.login payload2 now2 tokens2).1
  /\ AuthController.login payload1 now1 tokens1
     = (AuthController.mkReply 401
          (AuthController.MessageBody "Invalid credentials"), tokens1)
  /\ (AuthController.login payload1 now1 tokens1).1
     = (AuthController.login payload2 now2 tokens2).1.
Proof.
  intros Hbad1 Hbad2. unfold AuthController.login.
  rewrite !login_rejects by assumption. repeat split.
Qed.

(** A wrong password for the right user, and an empty user with the
    right password. *)
Lemma login_rejection_uniform_witness :
  let wrong_password :=
    {| AuthTypes.username := "admin"; AuthTypes.password := "wrong" |} in
  let empty_user :=
    {| AuthTypes.username := ""; AuthTypes.password := "Admin@123" |} in
  @AuthService.login plain_jwt wrong_password 1000 ∅
  = (inl (Error "Invalid credentials"), ∅)
  /\ @AuthService.login plain_jwt empty_user 2000 ∅
     = (inl (Error "Invalid credentials"), ∅)
  /\ (@AuthService.login plain_jwt wrong_password 1000 ∅).1
     = (@AuthService.login plain_jwt empty_user 2000 ∅).1
  /\ @AuthController.login plain_jwt wrong_password 1000 ∅
     = (AuthController.mkReply 401
          (AuthController.MessageBody "Invalid credentials"), ∅)
  /\ (@AuthController.login plain_jwt wrong_password 1000 ∅).1
     = (@AuthController.login plain_jwt empty_user 2000 ∅).1.
Proof.
  apply (@login_rejection_uniform plain_jwt).
  - unfold known_valid. cbn. intros [_ Hp]. discriminate Hp.
  - unfold known_valid. cbn. intros [Hu _]. discriminate Hu.
Defined.

(** C9. [logout] returns normally for every token and every store, with
    the token revoked; in particular when the token has no record, where
    the store stays as it is, and when it is called a second time. *)
Theorem logout_never_fails (tokens : TokenStore) (refreshToken : string) :
  AuthService.logout refreshToken tokens
  = (inr tt, revokeToken refreshToken tokens)
  /\ (tokens !! refreshToken = None ->
      AuthService.logout refreshToken tokens = (inr tt, tokens))
  /\ AuthService.logout refreshToken
       (AuthService.logout refreshToken tokens).2
     = (inr tt, (AuthService.logout refreshToken tokens).2).
Proof.
  unfold AuthService.logout, store_update, revokeToken. cbn [snd].
  split; [reflexivity | split].
  - intros Hk. now rewrite delete_id.
  - now rewrite delete_id by apply lookup_delete_eq.
Qed.

(** At the controller, a [logout] that carries a refresh token is always
    answered with 200. *)
Lemma controller_logout_succeeds (tokens : TokenStore) (refreshToken : string) :
  refreshToken <> "" ->
  AuthController.logout refreshToken tokens
  = (AuthController.mkReply 200
       (AuthController.MessageBody "Logged out successfully"),
     delete refreshToken tokens).
Proof.
  intros Hne. unfold AuthController.logout.
  apply String.eqb_neq in Hne. now rewrite Hne.
Qed.

(** ** The store contract on a concrete store *)

Lemma verifyToken_after_saveToken_witness :
  verifyToken "r1" 1000 (saveToken "r1" "admin" (Some 60) 1000 sample_store)
  = (Some "admin", saveToken "r1" "admin" (Some 60) 1000 sample_store).
Proof.
  apply (verifyToken_after_saveToken sample_store "r1" "admin" (Some 60) 1000).
  cbn. lia.
Defined.

Lemma expiry_is_strict_witness :
  (2500 = 2500 ->
     verifyToken "r2" 2500 sample_store = (Some "guest", sample_store)
     /\ (cleanupExpired 2500 sample_store).2 !! "r2"
        = Some {| username := "guest"; issuedAt := 1500; expiresAt := 2500 |}
     /\ (cleanupExpired 2500 sample_store).1
        = (cleanupExpired 2500 (delete "r2" sample_store)).1)
  /\ ((verifyToken "r2" 2500 sample_store).1 = None <-> 2500 > 2500)
  /\ ((cleanupExpired 2500 sample_store).2 !! "r2" = None <-> 2500 > 2500).
Proof.
  apply (expiry_is_strict sample_store "r2"
           {| username := "guest"; issuedAt := 1500; expiresAt := 2500 |} 2500).
  vm_compute. reflexivity.
Defined.

(** The scenario of the specification, in the model of the JWT
    interface: login, refresh, logout, and a refresh that is refused. *)
Example login_refresh_logout_refresh :
  exists issued tokens1 renewed,
    @AuthService.login plain_jwt admin_credentials 1700000000000 ∅
    = (inr issued, tokens1)
    /\ @AuthService.refresh plain_jwt
         (AuthTypes.refreshToken issued) 1700000060000 tokens1
       = (inr renewed, tokens1)
    /\ AuthTypes.accessToken renewed <> AuthTypes.accessToken issued
    /\ AuthTypes.refreshToken renewed = AuthTypes.refreshToken issued
    /\ AuthService.logout (AuthTypes.refreshToken issued) tokens1
       = (inr tt, ∅)
    /\ @AuthService.refresh plain_jwt
         (AuthTypes.refreshToken issued) 1700000120000 ∅
       = (inl (Error "Refresh token is invalid or revoked"), ∅).
Proof.
  eexists _, _, _. split; [apply login_accepts|].
  split; [vm_compute; reflexivity|].
  split; [vm_compute; discriminate|].
  split; [reflexivity|].
  split; vm_compute; reflexivity.
Qed.

Lemma revokeAllUserTokens_loop_enumeration user entries (tokens : TokenStore) :
  (forall k v, (k, v) ∈ entries <-> tokens !! k = Some v) ->
  revokeAllUserTokens_loop user entries tokens
  = revokeAllUserTokens user tokens.
Proof.
  intros Henum. unfold revokeAllUserTokens.
  rewrite !revokeAllUserTokens_loop_delete. now apply delete_loop_enumeration.
Qed.

Example verifyToken_absent :
  verifyToken "r9" 2000 sample_store = (None, sample_store).
Proof. vm_compute. reflexivity. Qed.

Example verifyToken_live :
  verifyToken "r2" 2000 sample_store = (Some "guest", sample_store).
Proof. vm_compute. reflexivity. Qed.

Example verifyToken_lazy_expiry :
  verifyToken "r2" 2501 sample_store
  = (None, saveToken "r1" "admin" None 1000 ∅).
Proof. vm_compute. reflexivity. Qed.

Example cleanupExpired_counts :
  cleanupExpired 2501 sample_store
  = (1%nat, saveToken "r1" "admin" None 1000 ∅)
  /\ cleanupExpired 2501 (verifyToken "r2" 2501 sample_store).2
     = (0%nat, saveToken "r1" "admin" None 1000 ∅).
Proof. split; vm_compute; reflexivity. Qed.

Example revokeAllUserTokens_admin :
  revokeAllUserTokens "admin"
    (saveToken "r3" "admin" (Some 60) 5000 sample_store)
  = saveToken "r2" "guest" (Some 1) 1500 ∅.
Proof. vm_compute. reflexivity. Qed.

(** ** Further properties of the store *)

(** The answer of [verifyToken] and the store it leaves, read off the
    record of the token. *)
Lemma verifyToken_answer (tokens : TokenStore) token now :
  (verifyToken token now tokens).1
  = match tokens !! token with
    | Some stored =>
        if decide (expiresAt stored < now) then None
        else Some (username stored)
    | None => None
    end.
Proof.
  unfold verifyToken. destruct (tokens !! token) as [stored|]; [|reflexivity].
  destruct (Z.gtb_spec now (expiresAt stored)); case_decide; (reflexivity || lia).
Qed.

Lemma verifyToken_store (tokens : TokenStore) token now :
  (verifyToken token now tokens).2
  = match tokens !! token with
    | Some stored =>
        if decide (expiresAt stored < now) then delete token tokens
        else tokens
    | None => tokens
    end.
Proof.
  unfold verifyToken. destruct (tokens !! token) as [stored|]; [|reflexivity].
  destruct (Z.gtb_spec now (expiresAt stored)); case_decide; (reflexivity || lia).
Qed.

(** X1. [saveToken] replaces an earlier record of the token without a
    trace of it, leaves the records of all other tokens alone, and makes
    the store one record larger only when the token had none. *)
Theorem saveToken_overwrites (tokens : TokenStore) (token : string)
    (owner1 owner2 : string) (ttl1 ttl2 : option Z) (now1 now2 : Z) :
  saveToken token owner2 ttl2 now2 (saveToken token owner1 ttl1 now1 tokens)
  = saveToken token owner2 ttl2 now2 tokens
  /\ (forall other,
        other <> token ->
        saveToken token owner2 ttl2 now2 tokens !! other = tokens !! other)
  /\ size (saveToken token owner2 ttl2 now2 tokens)
     = match tokens !! token with
       | Some _ => size tokens
       | None => S (size tokens)
       end.
Proof.
  unfold saveToken. split; [|split].
  - apply insert_insert_eq.
  - intros other Hne. now apply lookup_insert_ne.
  - rewrite map_size_insert. now destruct (tokens !! token).
Qed.

(** Past its deadline a saved token is removed by [verifyToken]. *)
Lemma saved_token_lifetime_late (tokens : TokenStore) token owner ttlSeconds
    now now' :
  now + default DEFAULT_TTL_SECONDS ttlSeconds * 1000 < now' ->
  verifyToken token now' (saveToken token owner ttlSeconds now tokens)
  = (None, delete token tokens).
Proof.
  intros Hlate. unfold verifyToken, saveToken.
  rewrite lookup_insert_eq. cbn [expiresAt].
  destruct (Z.gtb_spec now' (now + default DEFAULT_TTL_SECONDS ttlSeconds * 1000));
    [|lia].
  now rewrite delete_insert_eq.
Qed.

(** X2. A token that was just saved, with a ttl that is a whole
    number of seconds and a clock value in the range of exact
    arithmetic, verifies with the owner it was saved for at the clock
    values up to and including [now + ttl * 1000] and at no later one;
    the first later [verifyToken] removes the record. *)
Theorem saved_token_lifetime (tokens : TokenStore) (token owner : string)
    (ttlSeconds : option Z) (now now' : Z) :
  exact_save now (default DEFAULT_TTL_SECONDS ttlSeconds) ->
  let saved := saveToken token owner ttlSeconds now tokens in
  let deadline := now + default DEFAULT_TTL_SECONDS ttlSeconds * 1000 in
  ((verifyToken token now' saved).1 = Some owner <-> now' <= deadline)
  /\ (now' <= deadline -> verifyToken token now' saved = (Some owner, saved))
  /\ (deadline < now' ->
      verifyToken token now' saved = (None, delete token tokens)).
Proof.
  intros _. cbn zeta. unfold verifyToken, saveToken. rewrite lookup_insert_eq.
  cbn [expiresAt username].
  destruct (Z.gtb_spec now' (now + default DEFAULT_TTL_SECONDS ttlSeconds * 1000))
    as [Hlate|Hlive]; cbn [fst]; (split; [split|split]).
  - discriminate.
  - lia.
  - lia.
  - intros _. now rewrite delete_insert_eq.
  - intros _. exact Hlive.
  - reflexivity.
  - reflexivity.
  - lia.
Qed.

(** A ttl of one minute, verified at the last valid millisecond. *)
Lemma saved_token_lifetime_witness :
  let saved := saveToken "r4" "admin" (Some 60) 1000 sample_store in
  ((verifyToken "r4" 61000 saved).1 = Some "admin" <-> 61000 <= 1000 + 60 * 1000)
  /\ (61000 <= 1000 + 60 * 1000 ->
      verifyToken "r4" 61000 saved = (Some "admin", saved))
  /\ (1000 + 60 * 1000 < 61000 ->
      verifyToken "r4" 61000 saved = (None, delete "r4" sample_store)).
Proof.
  apply (saved_token_lifetime sample_store "r4" "admin" (Some 60) 1000 61000).
  unfold exact_save, safe_integer. vm_compute. repeat split; discriminate.
Defined.

(** X3. A revoked token is not found by [verifyToken] at any clock
    value, and revoking it does not change what [verifyToken] answers
    for any other token. *)
Theorem revokeToken_then_verifyToken (tokens : TokenStore)
    (token : string) (now : Z) :
  verifyToken token now (revokeToken token tokens)
  = (None, revokeToken token tokens)
  /\ (forall other,
        other <> token ->
        (verifyToken other now (revokeToken token tokens)).1
        = (verifyToken other now tokens).1).
Proof.
  unfold revokeToken. split.
  - unfold verifyToken. now rewrite lookup_delete_eq.
  - intros other Hne. rewrite !verifyToken_answer.
    now rewrite lookup_delete_ne by congruence.
Qed.

(** X4. Validity only ever ends: a token that verifies at some clock
    value verifies, with the same owner and without any change of the
    store, at every earlier clock value. *)
Theorem verifyToken_earlier (tokens : TokenStore) (token owner : string)
    (now1 now2 : Z) :
  now1 <= now2 ->
  (verifyToken token now2 tokens).1 = Some owner ->
  verifyToken token now1 tokens = (Some owner, tokens).
Proof.
  intros Hle. unfold verifyToken.
  destruct (tokens !! token) as [stored|]; [|discriminate].
  destruct (Z.gtb_spec now2 (expiresAt stored)); [discriminate|].
  cbn [fst]. intros [= <-].
  destruct (Z.gtb_spec now1 (expiresAt stored)); [lia | reflexivity].
Qed.

Lemma verifyToken_earlier_witness :
  verifyToken "r2" 1600 sample_store = (Some "guest", sample_store).
Proof.
  apply (verifyToken_earlier sample_store "r2" "guest" 1600 2500).
  - lia.
  - vm_compute. reflexivity.
Defined.

Lemma cleanupExpired_size now (tokens : TokenStore) :
  (size (cleanupExpired now tokens).2 + (cleanupExpired now tokens).1)%nat
  = size tokens.
Proof.
  rewrite cleanupExpired_filter. cbn [fst snd].
  pose proof (map_size_disj_union _ _
                (map_disjoint_filter_complement (expired now) tokens)) as Hsplit.
  rewrite map_filter_union_complement in Hsplit. lia.
Qed.

(** X5. Two sweeps in a row do the work of the later one: when [now1]
    is not after [now2], sweeping at [now1] and then at [now2] leaves
    the store that one sweep at [now2] leaves, and the two counts add up
    to the count of that one sweep. A second sweep at the same clock
    value removes nothing. *)
Theorem cleanupExpired_twice (tokens : TokenStore) (now1 now2 : Z) :
  now1 <= now2 ->
  let first := cleanupExpired now1 tokens in
  let second := cleanupExpired now2 first.2 in
  second.2 = (cleanupExpired now2 tokens).2
  /\ (first.1 + second.1)%nat = (cleanupExpired now2 tokens).1
  /\ cleanupExpired now1 first.2 = (0%nat, first.2).
Proof.
  intros Hle. cbn zeta.
  assert (Hstore : forall a b, a <= b ->
            (cleanupExpired b (cleanupExpired a tokens).2).2
            = (cleanupExpired b tokens).2).
  { intros a b Hab. apply map_eq. intros token.
    rewrite !cleanupExpired_lookup.
    destruct (tokens !! token) as [stored|]; [|reflexivity].
    repeat case_decide; (reflexivity || lia). }
  assert (Hsize : forall a (m : TokenStore),
            (size (cleanupExpired a m).2 + (cleanupExpired a m).1)%nat = size m)
    by (intros a m; apply cleanupExpired_size).
  assert (Hcount : forall a b, a <= b ->
            ((cleanupExpired a tokens).1
             + (cleanupExpired b (cleanupExpired a tokens).2).1)%nat
            = (cleanupExpired b tokens).1).
  { intros a b Hab.
    pose proof (Hsize a tokens) as H1.
    pose proof (Hsize b (cleanupExpired a tokens).2) as H2.
    pose proof (Hsize b tokens) as H3.
    rewrite (Hstore a b Hab) in H2. lia. }
  split; [now apply Hstore | split; [now apply Hcount|]].
  pose proof (Hcount now1 now1 ltac:(lia)) as Hc.
  pose proof (Hstore now1 now1 ltac:(lia)) as Hs.
  destruct (cleanupExpired now1 (cleanupExpired now1 tokens).2) as [c m].
  cbn [fst snd] in *. f_equal; [lia | exact Hs].
Qed.

Lemma cleanupExpired_twice_witness :
  (cleanupExpired 700000000000 (cleanupExpired 2501 sample_store).2).2
  = (cleanupExpired 700000000000 sample_store).2
  /\ ((cleanupExpired 2501 sample_store).1
      + (cleanupExpired 700000000000 (cleanupExpired 2501 sample_store).2).1)%nat
     = (cleanupExpired 700000000000 sample_store).1
  /\ cleanupExpired 2501 (cleanupExpired 2501 sample_store).2
     = (0%nat, (cleanupExpired 2501 sample_store).2).
Proof.
  apply (cleanupExpired_twice sample_store 2501 700000000000). lia.
Defined.

(** X6. A sweep cannot be observed through [verifyToken] at the same
    clock value: the answer for every token is what it would have been
    without the sweep, and no record is left for [verifyToken] to
    delete. *)
Theorem cleanupExpired_then_verifyToken (tokens : TokenStore)
    (token : string) (now : Z) :
  let swept := (cleanupExpired now tokens).2 in
  (verifyToken token now swept).1 = (verifyToken token now tokens).1
  /\ (verifyToken token now swept).2 = swept.
Proof.
  cbn zeta. rewrite !verifyToken_answer, verifyToken_store.
  rewrite !cleanupExpired_lookup.
  destruct (tokens !! token) as [stored|]; [|now split].
  destruct (decide (expiresAt stored < now)) as [He|He]; [now split|].
  destruct (decide (expiresAt stored < now)); [lia | now split].
Qed.

(** X7. [revokeAllUserTokens] changes the answer of [verifyToken]
    for the tokens of that user, which are not found any more, and for
    no other token; doing it twice is doing it once. *)
Theorem revokeAllUserTokens_then_verifyToken (tokens : TokenStore)
    (user token : string) (now : Z) :
  let after := revokeAllUserTokens user tokens in
  (verifyToken token now after).1
  = match (verifyToken token now tokens).1 with
    | Some owner => if decide (owner = user) then None else Some owner
    | None => None
    end
  /\ revokeAllUserTokens user after = after.
Proof.
  cbn zeta. split.
  - rewrite !verifyToken_answer, revokeAllUserTokens_lookup.
    destruct (tokens !! token) as [stored|]; [|reflexivity].
    destruct (decide (username stored = user)) as [Hu|Hu].
    + case_decide; [reflexivity|]. now rewrite decide_True.
    + case_decide; [reflexivity|]. now rewrite decide_False.
  - apply map_eq. intros t. rewrite !revokeAllUserTokens_lookup.
    destruct (tokens !! t) as [stored|]; [|reflexivity].
    destruct (decide (username stored = user)) as [Hu|Hu]; [reflexivity|].
    now rewrite decide_False.
Qed.

(** ** [getStats] *)

Lemma string_length_append (s1 s2 : string) :
  String.length (s1 +:+ s2) = (String.length s1 + String.length s2)%nat.
Proof. induction s1 as [|c s1 IH]; simpl; [reflexivity | now rewrite IH]. Qed.

Lemma string_length_substring (n : nat) (s : string) :
  String.length (String.substring 0 n s) = Nat.min n (String.length s).
Proof.
  revert s. induction n as [|n IH]; intros [|c s]; simpl; try reflexivity.
  now rewrite IH.
Qed.

Lemma Date_toISOString_Some iso ms text :
  Date_toISOString iso ms = Some text <-> printable ms /\ text = iso ms.
Proof.
  unfold Date_toISOString, printable.
  destruct (Z.leb_spec (Z.abs ms) MAX_TIME_VALUE); split.
  - intros [= <-]. now split.
  - intros [_ ->]. reflexivity.
  - discriminate.
  - intros [Hle _]. lia.
Qed.

Lemma getStats_entry_Some iso now (entry : string * StoredToken) listed :
  getStats_entry iso now entry = Some listed <->
  printable (issuedAt entry.2) /\ printable (expiresAt entry.2)
  /\ listed
     = {| TokenStats.token := String.substring 0 10 entry.1 +:+ "...";
          TokenStats.username := username entry.2;
          TokenStats.issuedAt := iso (issuedAt entry.2);
          TokenStats.expiresAt := iso (expiresAt entry.2);
          TokenStats.isExpired := now >? expiresAt entry.2 |}.
Proof.
  unfold getStats_entry.
  destruct (Date_toISOString iso (issuedAt entry.2)) as [issued|] eqn:Hi;
    cbn [mbind option_bind].
  - apply Date_toISOString_Some in Hi as [Hpi ->].
    destruct (Date_toISOString iso (expiresAt entry.2)) as [expires|] eqn:He;
      cbn [mbind option_bind].
    + apply Date_toISOString_Some in He as [Hpe ->]. split.
      * intros [= <-]. now repeat split.
      * intros (_ & _ & ->). reflexivity.
    + split; [discriminate|]. intros (_ & Hpe & _).
      assert (Hs : Date_toISOString iso (expiresAt entry.2)
                   = Some (iso (expiresAt entry.2)))
        by now apply Date_toISOString_Some.
      congruence.
  - split; [discriminate|]. intros (Hpi & _ & _).
    assert (Hs : Date_toISOString iso (issuedAt entry.2)
                 = Some (iso (issuedAt entry.2)))
      by now apply Date_toISOString_Some.
    congruence.
Qed.

Lemma getStats_Some iso now (tokens : TokenStore) stats :
  getStats iso now tokens = Some stats <->
  TokenStats.totalTokens stats = size tokens
  /\ Forall2 (fun entry listed => getStats_entry iso now entry = Some listed)
             (map_to_list tokens) (TokenStats.tokens stats).
Proof.
  unfold getStats, getStats_of.
  destruct (mapM (getStats_entry iso now) (map_to_list tokens)) as [listed|] eqn:Hm;
    cbn [mbind option_bind].
  - apply mapM_Some in Hm. split.
    + intros [= <-]. now split.
    + intros [Htotal Hall]. apply mapM_Some in Hall, Hm.
      destruct stats as [total listed']. cbn in *. congruence.
  - split; [discriminate|]. intros [_ Hall]. apply mapM_Some in Hall. congruence.
Qed.

(** X8. [getStats] returns, and does not throw, exactly when every
    stored [issuedAt] and [expiresAt] is a time value that a [Date] can
    print; what it returns then has one entry for each record and reports
    their number as [totalTokens]. *)
Theorem getStats_total (iso : Z -> string) (now : Z) (tokens : TokenStore) :
  (is_Some (getStats iso now tokens) <->
   forall token stored,
     tokens !! token = Some stored ->
     printable (issuedAt stored) /\ printable (expiresAt stored))
  /\ (forall stats,
        getStats iso now tokens = Some stats ->
        TokenStats.totalTokens stats = size tokens
        /\ length (TokenStats.tokens stats) = size tokens).
Proof.
  split.
  - unfold getStats, getStats_of. split.
    + intros [stats Hs] token stored Hk.
      destruct (mapM (getStats_entry iso now) (map_to_list tokens))
        as [listed|] eqn:Hm; [|discriminate].
      apply mapM_Some in Hm.
      apply elem_of_map_to_list, list_elem_of_lookup in Hk as [i Hi].
      destruct (Forall2_lookup_l _ _ _ _ _ Hm Hi) as (e & _ & He).
      apply getStats_entry_Some in He as (Hpi & Hpe & _). now split.
    + intros Hall.
      assert (Hm : is_Some (mapM (getStats_entry iso now) (map_to_list tokens))).
      { apply mapM_is_Some, Forall_forall. intros [token stored] Hin.
        apply elem_of_map_to_list in Hin. destruct (Hall _ _ Hin) as [Hpi Hpe].
        eexists. apply getStats_entry_Some. repeat split; assumption. }
      destruct Hm as [listed ->]. cbn. eauto.
  - intros stats Hs. apply getStats_Some in Hs as [Htotal Hall].
    split; [exact Htotal|].
    apply Forall2_length in Hall. rewrite <- Hall. apply length_map_to_list.
Qed.

Lemma Forall2_filter_length {A B} (R : A -> B -> Prop)
    (P : A -> Prop) (Q : B -> Prop)
    `{!forall x, Decision (P x)} `{!forall y, Decision (Q y)} l k :
  Forall2 R l k ->
  (forall x y, R x y -> (P x <-> Q y)) ->
  length (filter P l) = length (filter Q k).
Proof.
  intros Hall Hiff. induction Hall as [|x y l k Hxy Hall IH]; [reflexivity|].
  rewrite !filter_cons. specialize (Hiff x y Hxy).
  destruct (decide (P x)), (decide (Q y)); cbn; (lia || tauto).
Qed.

(** X9. The entries that [getStats] flags with [isExpired] are as
    many as the records that [cleanupExpired] would remove at the same
    clock value. *)
Theorem getStats_expired_count (iso : Z -> string) (now : Z)
    (tokens : TokenStore) (stats : TokenStats.Stats) :
  getStats iso now tokens = Some stats ->
  length (filter (fun listed => TokenStats.isExpired listed = true)
                 (TokenStats.tokens stats))
  = (cleanupExpired now tokens).1.
Proof.
  intros Hs. apply getStats_Some in Hs as [_ Hall].
  unfold cleanupExpired. rewrite cleanupExpired_loop_delete. cbn [fst].
  unfold hits. symmetry.
  apply (Forall2_filter_length _ _ _ _ _ Hall).
  intros entry listed He.
  apply getStats_entry_Some in He as (_ & _ & ->). reflexivity.
Qed.

Lemma getStats_expired_count_witness :
  length (filter (fun listed => TokenStats.isExpired listed = true)
            [ {| TokenStats.token := "r1...";
                 TokenStats.username := "admin";
                 TokenStats.issuedAt := Z_to_string 1000;
                 TokenStats.expiresAt := Z_to_string 604801000;
                 TokenStats.isExpired := false |};
              {| TokenStats.token := "r2...";
                 TokenStats.username := "guest";
                 TokenStats.issuedAt := Z_to_string 1500;
                 TokenStats.expiresAt := Z_to_string 2500;
                 TokenStats.isExpired := true |} ])
  = (cleanupExpired 2501 sample_store).1.
Proof.
  apply (getStats_expired_count Z_to_string 2501 sample_store
           {| TokenStats.totalTokens := 2; TokenStats.tokens := _ |}).
  vm_compute. reflexivity.
Defined.

(** X10. Every entry of [getStats] stands for a stored record: it
    shows the first ten characters of that token, or all of them when
    there are fewer, followed by three dots, so never more than thirteen
    characters; it names the owner of the record; and its [isExpired] is
    set exactly when [verifyToken] would not find the token at that
    clock value. *)
Theorem getStats_entries (iso : Z -> string) (now : Z)
    (tokens : TokenStore) (stats : TokenStats.Stats)
    (listed : TokenStats.Entry) :
  getStats iso now tokens = Some stats ->
  listed ∈ TokenStats.tokens stats ->
  (String.length (TokenStats.token listed) <= 13)%nat
  /\ exists token stored,
       tokens !! token = Some stored
       /\ TokenStats.token listed = String.substring 0 10 token +:+ "..."
       /\ String.length (TokenStats.token listed)
          = (Nat.min 10 (String.length token) + 3)%nat
       /\ TokenStats.username listed = username stored
       /\ (TokenStats.isExpired listed = true
           <-> (verifyToken token now tokens).1 = None).
Proof.
  intros Hs Hin. apply getStats_Some in Hs as [_ Hall].
  apply list_elem_of_lookup in Hin as [i Hi].
  destruct (Forall2_lookup_r _ _ _ _ _ Hall Hi) as ([token stored] & Hentry & He).
  apply list_elem_of_lookup_2, elem_of_map_to_list in Hentry.
  apply getStats_entry_Some in He as (_ & _ & ->). cbn [fst snd] in *.
  cbn [TokenStats.token TokenStats.username TokenStats.isExpired].
  assert (Hlen : String.length (String.substring 0 10 token +:+ "...")
                 = (Nat.min 10 (String.length token) + 3)%nat).
  { now rewrite string_length_append, string_length_substring. }
  split; [rewrite Hlen; lia|].
  exists token, stored. repeat split; try assumption.
  - intros Hgt. rewrite verifyToken_answer, Hentry.
    apply Z.gtb_lt in Hgt. now rewrite decide_True by lia.
  - rewrite verifyToken_answer, Hentry. case_decide as Hd; [|discriminate].
    intros _. apply Z.gtb_lt. lia.
Qed.

Lemma getStats_entries_witness :
  (String.length "r2..." <= 13)%nat
  /\ exists token stored,
       sample_store !! token = Some stored
       /\ "r2..." = String.substring 0 10 token +:+ "..."
       /\ String.length "r2..." = (Nat.min 10 (String.length token) + 3)%nat
       /\ "guest" = username stored
       /\ (true = true <-> (verifyToken token 2501 sample_store).1 = None).
Proof.
  apply (getStats_entries Z_to_string 2501 sample_store
           {| TokenStats.totalTokens := 2;
              TokenStats.tokens :=
                [ {| TokenStats.token := "r1...";
                     TokenStats.username := "admin";
                     TokenStats.issuedAt := Z_to_string 1000;
                     TokenStats.expiresAt := Z_to_string 604801000;
                     TokenStats.isExpired := false |};
                  {| TokenStats.token := "r2...";
                     TokenStats.username := "guest";
                     TokenStats.issuedAt := Z_to_string 1500;
                     TokenStats.expiresAt := Z_to_string 2500;
                     TokenStats.isExpired := true |} ] |}
           {| TokenStats.token := "r2...";
              TokenStats.username := "guest";
              TokenStats.issuedAt := Z_to_string 1500;
              TokenStats.expiresAt := Z_to_string 2500;
              TokenStats.isExpired := true |}).
  - vm_compute. reflexivity.
  - apply list_elem_of_further, list_elem_of_here.
Defined.

(** ** [isPublicRoute] *)

Lemma string_append_cons (a : ascii) (s1 s2 : string) :
  String a s1 +:+ s2 = String a (s1 +:+ s2).
Proof. reflexivity. Qed.

Lemma string_prefix_spec (s1 s2 : string) :
  String.prefix s1 s2 = true <-> exists rest, s2 = s1 +:+ rest.
Proof.
  revert s2. induction s1 as [|a s1 IH]; intros s2.
  - destruct s2; simpl; split; eauto.
  - destruct s2 as [|b s2]; simpl.
    + split; [discriminate | intros [rest Hrest]; discriminate].
    + destruct (ascii_dec a b) as [<-|Hne].
      * rewrite IH. split; intros [rest Hrest]; exists rest;
          rewrite string_append_cons in *; congruence.
      * split; [discriminate|]. intros [rest Hrest].
        rewrite string_append_cons in Hrest. congruence.
Qed.

Lemma string_append_assoc (s1 s2 s3 : string) :
  (s1 +:+ s2) +:+ s3 = s1 +:+ (s2 +:+ s3).
Proof.
  induction s1 as [|c s1 IH]; [reflexivity|].
  now rewrite !string_append_cons, IH.
Qed.

Lemma isPublicRoute_matches pathname :
  isPublicRoute pathname = true <->
  exists route, route ∈ PUBLIC_ROUTES /\ route_matches pathname route.
Proof.
  unfold isPublicRoute. rewrite existsb_exists. unfold route_matches.
  split; intros (route & Hin & Hm); exists route;
    (split; [now apply list_elem_of_In|]).
  - destruct (String.eqb_spec pathname route) as [->|_]; [now left|].
    destruct (String.prefix (route +:+ "/") pathname) eqn:Hp; [|discriminate].
    right. apply string_prefix_spec in Hp as [rest ->].
    exists rest. apply string_append_assoc.
  - destruct (String.eqb_spec pathname route) as [->|Hne]; [reflexivity|].
    destruct Hm as [Heq|[rest ->]]; [contradiction|].
    assert (Hp : String.prefix (route +:+ "/") (route +:+ "/" +:+ rest) = true).
    { apply string_prefix_spec. exists rest. symmetry.
      apply string_append_assoc. }
    now rewrite Hp.
Qed.

(** X11. A pathname is public exactly when it is one of the three
    public routes or continues one of them with a slash; hence every
    pathname below a public pathname is public as well. *)
Theorem isPublicRoute_spec (pathname : string) :
  (isPublicRoute pathname = true <->
   exists route,
     route ∈ ["/health"; "/auth/login"; "/auth/refresh"]
     /\ (pathname = route \/ exists rest, pathname = route +:+ "/" +:+ rest))
  /\ (forall rest,
        isPublicRoute pathname = true ->
        isPublicRoute (pathname +:+ "/" +:+ rest) = true).
Proof.
  split; [apply isPublicRoute_matches|].
  intros rest. rewrite !isPublicRoute_matches.
  intros (route & Hin & Hm). exists route. split; [exact Hin|].
  right. destruct Hm as [->|[rest' ->]]; [now exists rest|].
  exists (rest' +:+ "/" +:+ rest).
  now rewrite !string_append_assoc.
Qed.

(** X12. A public route that is continued with any character other
    than a slash is not public: [/auth/loginbar] does not match
    [/auth/login], and neither does a route followed by a query
    string. *)
Theorem isPublicRoute_no_false_match (route : string) (c : ascii)
    (rest : string) :
  route ∈ PUBLIC_ROUTES ->
  c <> "/"%char ->
  isPublicRoute (route +:+ String c rest) = false.
Proof.
  intros Hroute Hc.
  destruct (isPublicRoute (route +:+ String c rest)) eqn:Hp; [|reflexivity].
  exfalso. apply isPublicRoute_matches in Hp as (route' & Hroute' & Hm).
  unfold PUBLIC_ROUTES in *.
  repeat (apply elem_of_cons in Hroute as [->|Hroute]);
    [| | |inversion Hroute];
    (repeat (apply elem_of_cons in Hroute' as [->|Hroute']);
       [| | |inversion Hroute']);
    (destruct Hm as [Hm|[rest' Hm]];
     repeat rewrite string_append_cons in Hm;
     change (EmptyString +:+ ?s) with s in Hm; congruence).
Qed.

Lemma isPublicRoute_no_false_match_witness :
  isPublicRoute "/auth/loginbar" = false.
Proof.
  apply (isPublicRoute_no_false_match "/auth/login" "b" "ar").
  - apply list_elem_of_further, list_elem_of_here.
  - discriminate.
Defined.

(** X13. No pathname that starts with the API prefix is public: the
    pathnames that the application serves, which all start with
    [/api/v1], are not matched by the list of public routes. *)
Theorem isPublicRoute_API_PREFIX (rest : string) :
  isPublicRoute (API_PREFIX +:+ rest) = false.
Proof. reflexivity. Qed.

(** ** Further properties of the Session Service *)

(** [refresh] by the outcome of its [verifyToken] call. *)
Lemma refresh_steps `{Jwt} refreshToken now (tokens : TokenStore) :
  AuthService.refresh refreshToken now tokens
  = if falsy (verifyToken refreshToken now tokens).1
    then (inl token_error, (verifyToken refreshToken now tokens).2)
    else
      match jwt_verify refreshToken now with
      | None => (inl JwtVerifyError, (verifyToken refreshToken now tokens).2)
      | Some decoded =>
          (inr {| AuthTypes.accessToken :=
                    jwt_sign (sub decoded) expiresIn_15m now;
                  AuthTypes.refreshToken := refreshToken;
                  AuthTypes.tokenType := "Bearer" |},
           (verifyToken refreshToken now tokens).2)
      end.
Proof.
  unfold AuthService.refresh, svc_bind, store_call.
  destruct (falsy (verifyToken refreshToken now tokens).1); [reflexivity|].
  destruct (jwt_verify refreshToken now); reflexivity.
Qed.

Lemma falsy_false value : falsy value = false ->
  exists user, value = Some user /\ user <> "".
Proof.
  destruct value as [user|]; [|discriminate]. cbn. intros Hne.
  exists user. split; [reflexivity|]. now apply String.eqb_neq.
Qed.

(** X14. Whatever the token, a [refresh] that returns has found a
    record of the token with a non-empty owner and [now <= expiresAt],
    and the token has passed [app.jwt.verify]; it hands back the very
    refresh token it was given, with an access token for the subject of
    that token, and leaves the store as it found it. *)
Theorem refresh_success `{Jwt} (tokens tokens' : TokenStore)
    (refreshToken : string) (now : Z) (response : AuthTypes.TokenResponse) :
  AuthService.refresh refreshToken now tokens = (inr response, tokens') ->
  tokens' = tokens
  /\ AuthTypes.refreshToken response = refreshToken
  /\ AuthTypes.tokenType response = "Bearer"
  /\ exists stored decoded,
       tokens !! refreshToken = Some stored
       /\ now <= expiresAt stored
       /\ username stored <> ""
       /\ jwt_verify refreshToken now = Some decoded
       /\ AuthTypes.accessToken response
          = jwt_sign (sub decoded) expiresIn_15m now.
Proof.
  rewrite refresh_steps.
  destruct (falsy (verifyToken refreshToken now tokens).1) eqn:Hf;
    [discriminate|].
  apply falsy_false in Hf as (user & Huser & Hne).
  destruct (jwt_verify refreshToken now) as [decoded|]; [|discriminate].
  intros [= <- <-].
  pose proof (verifyToken_answer tokens refreshToken now) as Ha.
  pose proof (verifyToken_store tokens refreshToken now) as Hs.
  rewrite Huser in Ha.
  destruct (tokens !! refreshToken) as [stored|]; [|discriminate].
  destruct (decide (expiresAt stored < now)); [discriminate|].
  injection Ha as ->.
  split; [exact Hs|]. split; [reflexivity|]. split; [reflexivity|].
  exists stored, decoded. repeat split; (assumption || lia || reflexivity).
Qed.

(** X15. [refresh] changes the store as its [verifyToken] call does
    and in no other way, whether it returns or throws: it removes the
    record of the token when that record has expired, never adds a
    record and never touches the record of another token. *)
Theorem refresh_store_effect `{Jwt} (tokens : TokenStore)
    (refreshToken : string) (now : Z) :
  let after := (AuthService.refresh refreshToken now tokens).2 in
  after = (verifyToken refreshToken now tokens).2
  /\ (after = tokens \/ after = delete refreshToken tokens)
  /\ (forall other,
        other <> refreshToken -> after !! other = tokens !! other).
Proof.
  cbn zeta.
  assert (Hstore : (AuthService.refresh refreshToken now tokens).2
                   = (verifyToken refreshToken now tokens).2).
  { rewrite refresh_steps.
    destruct (falsy _); [reflexivity|]. now destruct (jwt_verify _ _). }
  rewrite Hstore, verifyToken_store. split; [reflexivity|].
  destruct (tokens !! refreshToken) as [stored|].
  - case_decide.
    + split; [now right|]. intros other Hne. now apply lookup_delete_ne.
    + split; [now left | reflexivity].
  - split; [now left | reflexivity].
Qed.

(** X16. After [logout] of a token, [refresh] of that token throws
    the token error at every clock value, whatever the store held; at
    the controller the answer is the 401 reply, or the 400 reply when the
    token is the empty string. *)
Theorem refresh_after_logout `{Jwt} (tokens : TokenStore)
    (refreshToken : string) (now : Z) :
  let revoked := (AuthService.logout refreshToken tokens).2 in
  AuthService.refresh refreshToken now revoked = (inl token_error, revoked)
  /\ AuthController.refresh refreshToken now revoked
     = (if String.eqb refreshToken ""
        then AuthController.mkReply 400
               (AuthController.MessageBody "Refresh token is required")
        else AuthController.mkReply 401
               (AuthController.MessageBody "Invalid refresh token"),
        revoked).
Proof.
  cbn zeta.
  assert (Hs : AuthService.refresh refreshToken now
                 (AuthService.logout refreshToken tokens).2
               = (inl token_error, (AuthService.logout refreshToken tokens).2)).
  { rewrite refresh_steps.
    unfold AuthService.logout, store_update, revokeToken. cbn [snd].
    unfold verifyToken. now rewrite lookup_delete_eq. }
  split; [exact Hs|].
  unfold AuthController.refresh. rewrite Hs.
  now destruct (String.eqb refreshToken "").
Qed.

(** X17. The subject of the new access token comes from the refresh
    token and not from the store: for a verifiable token with a live
    record, [refresh] returns an access token for the [sub] claim of the
    token, whoever the record names as owner, as long as that owner is
    not the empty string. *)
Theorem refresh_subject_from_token `{Jwt} (tokens : TokenStore)
    (claims : Claims) (stored : StoredToken) (now : Z) :
  tokens !! jwt_encode claims = Some stored ->
  username stored <> "" ->
  now <= expiresAt stored ->
  iat claims * 1000 <= now ->
  now < exp claims * 1000 ->
  AuthService.refresh (jwt_encode claims) now tokens
  = (inr {| AuthTypes.accessToken :=
              jwt_sign (sub claims) expiresIn_15m now;
            AuthTypes.refreshToken := jwt_encode claims;
            AuthTypes.tokenType := "Bearer" |}, tokens).
Proof.
  intros Hk Howner Hlive Hiat Hexp. rewrite refresh_steps.
  rewrite verifyToken_answer, verifyToken_store, Hk.
  rewrite !decide_False by lia. cbn [falsy].
  apply String.eqb_neq in Howner. rewrite Howner.
  now rewrite jwt_verify_encode.
Qed.

(** A token for [alice] that is stored under the owner [bob]. *)
Lemma refresh_subject_from_token_witness :
  let alice := {| sub := "alice"; iat := 1; exp := 100 |} in
  let tokens : TokenStore :=
    saveToken (plain_encode alice) "bob" (Some 60) 2000 ∅ in
  @AuthService.refresh plain_jwt (plain_encode alice) 3000 tokens
  = (inr {| AuthTypes.accessToken :=
              @jwt_sign plain_jwt "alice" expiresIn_15m 3000;
            AuthTypes.refreshToken := plain_encode alice;
            AuthTypes.tokenType := "Bearer" |}, tokens).
Proof.
  apply (@refresh_subject_from_token plain_jwt
           (saveToken (plain_encode {| sub := "alice"; iat := 1; exp := 100 |})
                      "bob" (Some 60) 2000 ∅)
           {| sub := "alice"; iat := 1; exp := 100 |}
           {| username := "bob"; issuedAt := 2000; expiresAt := 62000 |} 3000).
  - vm_compute. reflexivity.
  - discriminate.
  - cbn. lia.
  - cbn. lia.
  - reflexivity.
Defined.

(** X18. A live record whose owner is the empty string does not let
    [refresh] through: the empty owner counts as no owner, [refresh]
    throws the token error, and the record stays in the store. *)
Theorem refresh_empty_owner `{Jwt} (tokens : TokenStore)
    (refreshToken : string) (stored : StoredToken) (now : Z) :
  tokens !! refreshToken = Some stored ->
  username stored = "" ->
  now <= expiresAt stored ->
  AuthService.refresh refreshToken now tokens = (inl token_error, tokens)
  /\ verifyToken refreshToken now tokens = (Some "", tokens).
Proof.
  intros Hk Howner Hlive. rewrite refresh_steps.
  unfold verifyToken. rewrite Hk, Howner.
  destruct (Z.gtb_spec now (expiresAt stored)); [lia|]. now split.
Qed.

Lemma refresh_empty_owner_witness :
  @AuthService.refresh plain_jwt "t" 1500 (saveToken "t" "" (Some 60) 1000 ∅)
  = (inl token_error, saveToken "t" "" (Some 60) 1000 ∅)
  /\ verifyToken "t" 1500 (saveToken "t" "" (Some 60) 1000 ∅)
     = (Some "", saveToken "t" "" (Some 60) 1000 ∅).
Proof.
  apply (@refresh_empty_owner plain_jwt _ "t"
           {| username := ""; issuedAt := 1000; expiresAt := 61000 |} 1500).
  - vm_compute. reflexivity.
  - reflexivity.
  - cbn. lia.
Defined.

Lemma refresh_success_witness :
  let issued := @jwt_sign plain_jwt "admin" expiresIn_7d 1700000000000 in
  let tokens : TokenStore :=
    saveToken issued "admin" (Some 604800) 1700000000000 ∅ in
  let response :=
    {| AuthTypes.accessToken :=
         @jwt_sign plain_jwt "admin" expiresIn_15m 1700000060000;
       AuthTypes.refreshToken := issued;
       AuthTypes.tokenType := "Bearer" |} in
  tokens = tokens
  /\ AuthTypes.refreshToken response = issued
  /\ AuthTypes.tokenType response = "Bearer"
  /\ exists stored decoded,
       tokens !! issued = Some stored
       /\ 1700000060000 <= expiresAt stored
       /\ username stored <> ""
       /\ @jwt_verify plain_jwt issued 1700000060000 = Some decoded
       /\ AuthTypes.accessToken response
          = @jwt_sign plain_jwt (sub decoded) expiresIn_15m 1700000060000.
Proof.
  cbv zeta.
  apply (@refresh_success plain_jwt _ _ _ 1700000060000).
  vm_compute. reflexivity.
Defined.

Lemma jwt_sign_inj `{Jwt} subject1 subject2 expiresIn1 expiresIn2 now1 now2 :
  jwt_sign subject1 expiresIn1 now1 = jwt_sign subject2 expiresIn2 now2 ->
  subject1 = subject2
  /\ now1 / 1000 = now2 / 1000
  /\ expiresIn1 = expiresIn2.
Proof.
  unfold jwt_sign. intros Heq. apply jwt_encode_inj in Heq.
  injection Heq as -> Hiat Hexp. repeat split; lia.
Qed.

Lemma login_record now :
  {| username := "admin"; issuedAt := now;
     expiresAt := now + default DEFAULT_TTL_SECONDS
                          (Some (7 * 24 * 60 * 60)) * 1000 |}
  = admin_session now.
Proof. unfold admin_session. f_equal. Qed.

(** X19. A successful [login] stores one record, under the refresh
    token it returns: owner [admin], issued at the clock value of the
    call and expiring seven days later. It touches no other record, the
    stored token verifies at once, and the access token it returns is a
    different string from the refresh token. *)
Theorem login_persists `{Jwt} (tokens : TokenStore) (now : Z) :
  exists response tokens',
    AuthService.login admin_credentials now tokens = (inr response, tokens')
    /\ tokens' !! AuthTypes.refreshToken response = Some (admin_session now)
    /\ (forall other,
          other <> AuthTypes.refreshToken response ->
          tokens' !! other = tokens !! other)
    /\ verifyToken (AuthTypes.refreshToken response) now tokens'
       = (Some "admin", tokens')
    /\ AuthTypes.accessToken response <> AuthTypes.refreshToken response.
Proof.
  eexists _, _. split; [apply login_accepts|].
  cbn [AuthTypes.refreshToken AuthTypes.accessToken].
  split; [|split; [|split]].
  - unfold saveToken. rewrite lookup_insert_eq. now rewrite login_record.
  - intros other Hne. unfold saveToken. now apply lookup_insert_ne.
  - apply verifyToken_saved. cbn. lia.
  - intros Heq. apply jwt_sign_inj in Heq as (_ & _ & Hexp). discriminate.
Qed.

(** X20. The access token of a [login] is of no use as a refresh
    token: unless the store already held a record under that very
    string, [refresh] of the access token throws the token error at
    every clock value. *)
Theorem access_token_is_no_refresh_token `{Jwt} (tokens : TokenStore)
    (now now' : Z) :
  tokens !! jwt_sign "admin" expiresIn_15m now = None ->
  exists response tokens',
    AuthService.login admin_credentials now tokens = (inr response, tokens')
    /\ AuthService.refresh (AuthTypes.accessToken response) now' tokens'
       = (inl token_error, tokens').
Proof.
  intros Hfresh. eexists _, _. split; [apply login_accepts|].
  cbn [AuthTypes.accessToken]. rewrite refresh_steps.
  set (tokens' := saveToken _ _ _ _ tokens).
  assert (Hv : verifyToken (jwt_sign "admin" expiresIn_15m now) now' tokens'
               = (None, tokens')).
  { unfold verifyToken, tokens', saveToken.
    rewrite lookup_insert_ne, Hfresh; [reflexivity|].
    intros Heq. apply jwt_sign_inj in Heq as (_ & _ & Hexp). discriminate. }
  now rewrite Hv.
Qed.

Lemma access_token_is_no_refresh_token_witness :
  exists response tokens',
    @AuthService.login plain_jwt admin_credentials 1700000000000 ∅
    = (inr response, tokens')
    /\ @AuthService.refresh plain_jwt
         (AuthTypes.accessToken response) 1700000001000 tokens'
       = (inl token_error, tokens').
Proof.
  apply (@access_token_is_no_refresh_token plain_jwt ∅).
  apply lookup_empty.
Defined.

(** [AuthService.login] is [login_clock_reads] at one clock value. *)
Lemma login_one_clock `{Jwt} payload now :
  AuthService.login payload now
  = login_clock_reads payload
      {| atAccessSign := now; atRefreshSign := now; atSave := now |}.
Proof. reflexivity. Qed.

Lemma login_clock_reads_accepts `{Jwt} clock (tokens : TokenStore) :
  login_clock_reads admin_credentials clock tokens
  = (inr {| AuthTypes.accessToken :=
              jwt_sign "admin" expiresIn_15m (atAccessSign clock);
            AuthTypes.refreshToken :=
              jwt_sign "admin" expiresIn_7d (atRefreshSign clock);
            AuthTypes.tokenType := "Bearer" |},
     saveToken (jwt_sign "admin" expiresIn_7d (atRefreshSign clock)) "admin"
               (Some (7 * 24 * 60 * 60)) (atSave clock) tokens).
Proof. reflexivity. Qed.

(** X21. Two logins return the same refresh token exactly when
    their refresh tokens were signed in the same clock second, and the
    same access token exactly when their access tokens were. When the
    refresh tokens are the same, the second login replaces the record of
    the first, so that the store holds one record for both, issued at
    the second login's [saveToken]; when they differ, both records are
    in the store. *)
Theorem logins_in_one_second `{Jwt} (tokens : TokenStore)
    (clock1 clock2 : ClockReads) :
  let first := login_clock_reads admin_credentials clock1 tokens in
  let second := login_clock_reads admin_credentials clock2 first.2 in
  let accessToken1 := jwt_sign "admin" expiresIn_15m (atAccessSign clock1) in
  let accessToken2 := jwt_sign "admin" expiresIn_15m (atAccessSign clock2) in
  let refreshToken1 := jwt_sign "admin" expiresIn_7d (atRefreshSign clock1) in
  let refreshToken2 := jwt_sign "admin" expiresIn_7d (atRefreshSign clock2) in
  first.1 = inr {| AuthTypes.accessToken := accessToken1;
                   AuthTypes.refreshToken := refreshToken1;
                   AuthTypes.tokenType := "Bearer" |}
  /\ second.1 = inr {| AuthTypes.accessToken := accessToken2;
                       AuthTypes.refreshToken := refreshToken2;
                       AuthTypes.tokenType := "Bearer" |}
  /\ (refreshToken1 = refreshToken2
      <-> atRefreshSign clock1 / 1000 = atRefreshSign clock2 / 1000)
  /\ (accessToken1 = accessToken2
      <-> atAccessSign clock1 / 1000 = atAccessSign clock2 / 1000)
  /\ (atRefreshSign clock1 / 1000 = atRefreshSign clock2 / 1000 ->
      second.2 = (login_clock_reads admin_credentials clock2 tokens).2
      /\ second.2 !! refreshToken1 = Some (admin_session (atSave clock2)))
  /\ (atRefreshSign clock1 / 1000 <> atRefreshSign clock2 / 1000 ->
      second.2 !! refreshToken1 = Some (admin_session (atSave clock1))
      /\ second.2 !! refreshToken2 = Some (admin_session (atSave clock2))).
Proof.
  cbn zeta. rewrite !login_clock_reads_accepts. cbn [fst snd].
  pose proof login_record as Hrecord.
  split; [reflexivity|]. split; [reflexivity|].
  split; [apply jwt_sign_same_second|]. split; [apply jwt_sign_same_second|].
  split.
  - intros Hsame.
    assert (Hr : jwt_sign "admin" expiresIn_7d (atRefreshSign clock1)
                 = jwt_sign "admin" expiresIn_7d (atRefreshSign clock2))
      by now apply jwt_sign_same_second.
    rewrite Hr. unfold saveToken. split.
    + apply insert_insert_eq.
    + rewrite lookup_insert_eq. now rewrite Hrecord.
  - intros Hdiff.
    assert (Hr : jwt_sign "admin" expiresIn_7d (atRefreshSign clock2)
                 <> jwt_sign "admin" expiresIn_7d (atRefreshSign clock1)).
    { intros Heq. apply jwt_sign_same_second in Heq. congruence. }
    unfold saveToken. split.
    + rewrite lookup_insert_ne by exact Hr.
      rewrite lookup_insert_eq. now rewrite Hrecord.
    + rewrite lookup_insert_eq. now rewrite Hrecord.
Qed.

(** A login that signs its access token in one second and its refresh
    token in the next, followed by a login within that next second: one
    refresh token and one record, two access tokens. *)
Example logins_across_a_second :
  let clock1 := {| atAccessSign := 1700000000999;
                   atRefreshSign := 1700000001000;
                   atSave := 1700000001000 |} in
  let clock2 := {| atAccessSign := 1700000001400;
                   atRefreshSign := 1700000001400;
                   atSave := 1700000001400 |} in
  exists response1 tokens1 response2 tokens2,
    @login_clock_reads plain_jwt admin_credentials clock1 ∅
    = (inr response1, tokens1)
    /\ @login_clock_reads plain_jwt admin_credentials clock2 tokens1
       = (inr response2, tokens2)
    /\ AuthTypes.refreshToken response1 = AuthTypes.refreshToken response2
    /\ AuthTypes.accessToken response1 <> AuthTypes.accessToken response2
    /\ size tokens2 = 1%nat
    /\ tokens2 !! AuthTypes.refreshToken response1
       = Some (admin_session 1700000001400).
Proof.
  cbn zeta. eexists _, _, _, _.
  split; [apply login_clock_reads_accepts|].
  split; [apply login_clock_reads_accepts|].
  cbn [AuthTypes.refreshToken AuthTypes.accessToken].
  split; [vm_compute; reflexivity|].
  split; [vm_compute; discriminate|].
  split; vm_compute; reflexivity.
Qed.

(** X22. A session ends seven days after its [login]: a [refresh] of
    the refresh token at a clock value past [now + 604800000] throws the
    token error and takes the record of the session out of the store. *)
Theorem refresh_after_seven_days `{Jwt} (tokens : TokenStore)
    (now1 now2 : Z) :
  now1 + 604800000 < now2 ->
  exists response tokens1,
    AuthService.login admin_credentials now1 tokens = (inr response, tokens1)
    /\ AuthService.refresh (AuthTypes.refreshToken response) now2 tokens1
       = (inl token_error, delete (AuthTypes.refreshToken response) tokens).
Proof.
  intros Hlate. eexists _, _. split; [apply login_accepts|].
  cbn [AuthTypes.refreshToken]. rewrite refresh_steps.
  rewrite saved_token_lifetime_late by (cbn; lia). reflexivity.
Qed.

Lemma refresh_after_seven_days_witness :
  exists response tokens1,
    @AuthService.login plain_jwt admin_credentials 1700000000000 ∅
    = (inr response, tokens1)
    /\ @AuthService.refresh plain_jwt
         (AuthTypes.refreshToken response) 1700604800001 tokens1
       = (inl token_error, delete (AuthTypes.refreshToken response) ∅).
Proof.
  apply (@refresh_after_seven_days plain_jwt ∅ 1700000000000 1700604800001).
  lia.
Defined.

(** ** The controller and the protected routes *)

(** X23. For a request body that carries a [refreshToken] string, the
    [logout] handler answers 400 without touching the store when the
    string is empty, and otherwise 200 with the token revoked; no token
    and no store make it answer that the logout failed. *)
Theorem controller_logout_replies (tokens : TokenStore)
    (refreshToken : string) :
  AuthController.logout refreshToken tokens
  = (if String.eqb refreshToken ""
     then (AuthController.mkReply 400
             (AuthController.MessageBody "Refresh token is required"),
           tokens)
     else (AuthController.mkReply 200
             (AuthController.MessageBody "Logged out successfully"),
           delete refreshToken tokens))
  /\ AuthController.body (AuthController.logout refreshToken tokens).1
     <> AuthController.MessageBody "Logout failed".
Proof.
  unfold AuthController.logout, AuthService.logout, store_update, revokeToken.
  destruct (String.eqb refreshToken ""); split;
    (reflexivity || discriminate).
Qed.

Lemma login_access_token_verifies `{Jwt} now1 now2 :
  now1 <= now2 ->
  now2 < (now1 / 1000 + expiresIn_15m) * 1000 ->
  jwt_verify (jwt_sign "admin" expiresIn_15m now1) now2
  = Some {| sub := "admin"; iat := now1 / 1000;
            exp := now1 / 1000 + expiresIn_15m |}.
Proof.
  intros Hafter Hlive.
  assert (Hfloor : 1000 * (now1 / 1000) <= now1) by (apply Z.mul_div_le; lia).
  unfold jwt_sign. apply jwt_verify_encode; cbn [iat exp]; lia.
Qed.

(** X24. [GET /me] with the access token of a [login], at a clock
    value not before the login and before the fifteen minutes of the
    token are over, answers with the claims of that token: subject
    [admin], issued in the clock second of the login, expiring 900
    seconds later. Without a bearer token it answers 401. *)
Theorem me_after_login `{Jwt} (tokens : TokenStore) (now1 now2 : Z) :
  now1 <= now2 ->
  now2 < (now1 / 1000 + expiresIn_15m) * 1000 ->
  exists response tokens1,
    AuthService.login admin_credentials now1 tokens = (inr response, tokens1)
    /\ AuthRoutes.me (Some (AuthTypes.accessToken response)) now2
       = AuthRoutes.SentUser {| sub := "admin"; iat := now1 / 1000;
                                exp := now1 / 1000 + 900 |}
    /\ AuthRoutes.me None now2 = AuthRoutes.Sent AuthRoutes.unauthorized.
Proof.
  intros Hafter Hlive. eexists _, _. split; [apply login_accepts|].
  cbn [AuthTypes.accessToken]. unfold AuthRoutes.me, AuthRoutes.authenticate.
  now rewrite login_access_token_verifies.
Qed.

Lemma me_after_login_witness :
  exists response tokens1,
    @AuthService.login plain_jwt admin_credentials 1700000000000 ∅
    = (inr response, tokens1)
    /\ @AuthRoutes.me plain_jwt
         (Some (AuthTypes.accessToken response)) 1700000899999
       = AuthRoutes.SentUser {| sub := "admin"; iat := 1700000000000 / 1000;
                                exp := 1700000000000 / 1000 + 900 |}
    /\ @AuthRoutes.me plain_jwt None 1700000899999
       = AuthRoutes.Sent AuthRoutes.unauthorized.
Proof.
  apply (@me_after_login plain_jwt ∅ 1700000000000 1700000899999).
  - lia.
  - reflexivity.
Defined.


